(** * A shallow embedding of [main.py]: crawler, classifiers, batched analysis

    The Python program harvests posts of a discussion board into a
    line-oriented raw file ([collect_posts]) and later sends the text of the
    persisted posts to two moderation services, writing one result record per
    analysed post ([analyze_posts_batched]).

    Modelling conventions:
    - a Python [str] is a [string] (characters with code point below 256);
      [None] is the [None] of an [option];
    - Python [int]s ([limit], [batch_size], identifiers, the [collected]
      counter) are [Z];
    - the set [seen_posts] is a [gset Z];
    - a file is the list of its lines, the newest last;
    - the outside world (the board, the two classifier services, the random
      generator, the clock, the disk under the raw file) is a script: for
      each kind of call, the stream of the answers the successive calls
      receive;
    - every call made to the outside world is recorded in a log, in program
      order; [print] statements are not modelled. *)

From Stdlib Require Import Ascii String QArith.
From stdpp Require Import base decidable option list gmap strings.

Local Open Scope Z_scope.

(** ** Python string methods used by the program *)

Module Py.

(** [prefix p s]: the string [s] starts with [p]. *)
Fixpoint prefix (p s : string) : bool :=
  match p, s with
  | EmptyString, _ => true
  | String a p', String b s' => if decide (a = b) then prefix p' s' else false
  | String _ _, EmptyString => false
  end.

(** The scan of [str.replace] for a non-empty pattern: walk through [s] from
    the left; [skip] counts the characters of a match still to be jumped
    over. Matches are therefore the leftmost non-overlapping ones. *)
Fixpoint replace_from (old new : string) (skip : nat) (s : string) : string :=
  match s with
  | EmptyString => EmptyString
  | String c s' =>
      match skip with
      | S k => replace_from old new k s'
      | O =>
          if prefix old s
          then new +:+ replace_from old new (String.length old - 1) s'
          else String c (replace_from old new 0 s')
      end
  end.

(** With an empty pattern Python inserts [new] before every character and
    at the end. *)
Fixpoint intersperse (new s : string) : string :=
  match s with
  | EmptyString => new
  | String c s' => new +:+ String c (intersperse new s')
  end.

(** [s.replace(old, new)] *)
Definition replace (old new s : string) : string :=
  match old with
  | EmptyString => intersperse new s
  | String _ _ => replace_from old new 0 s
  end.

(** [str.isspace] on one character, for code points below 256. *)
Definition isspace (c : ascii) : bool :=
  let n := nat_of_ascii c in
  ((9 <=? n) && (n <=? 13) || (28 <=? n) && (n <=? 32)
   || (n =? 133) || (n =? 160))%nat.

Fixpoint lstrip (s : string) : string :=
  match s with
  | EmptyString => EmptyString
  | String c s' => if isspace c then lstrip s' else s
  end.

Fixpoint rstrip (s : string) : string :=
  match s with
  | EmptyString => EmptyString
  | String c s' =>
      match rstrip s' with
      | EmptyString => if isspace c then EmptyString else String c EmptyString
      | r => String c r
      end
  end.

(** [s.strip()] *)
Definition strip (s : string) : string := rstrip (lstrip s).

(** Truth value of a string: [not s] holds of the empty string only. *)
Definition is_empty (s : string) : bool :=
  match s with EmptyString => true | String _ _ => false end.

(** [some nonempty suffix of o and the string m start alike]: one is a
    prefix of the other. Used to tell when a match of a pattern can reach
    across the border between two pieces of a string. *)
Fixpoint overlaps (o m : string) : bool :=
  match o with
  | EmptyString => false
  | String _ o' => prefix o m || prefix m o || overlaps o' m
  end.

Definition tail (s : string) : string :=
  match s with EmptyString => EmptyString | String _ s' => s' end.

End Py.

(** ** Text normalizer *)

Definition newline : string := String (ascii_of_nat 10) EmptyString.
Definition dquote : string := String (ascii_of_nat 34) EmptyString.

(** [clean_comment(comment)]: the argument is a string or [None]. *)
Definition clean_comment (comment : option string) : string :=
  match comment with
  | None => EmptyString
  | Some c =>
      if Py.is_empty c then EmptyString
      else
        let text := Py.replace "<br>" newline c in
        let text := Py.replace "&quot;" dquote (Py.replace "&gt;" ">" text) in
        text
  end.


(** ** Data *)

(** A post as the thread endpoint serves it: the fields [no], [time] and
    the optional [com] that the crawler consumes. *)
Record Post := { no : Z; time : Z; com : option string }.

(** A catalog is a list of pages; of a page the crawler reads the [no] of
    each entry of [threads]. A thread answer carries its [posts]. *)
Record Page := { threads : list Z }.
Record ThreadData := { posts : list Post }.

(** A record of the raw file, as [collect_posts] builds it. [comment] is the
    one field the reader fetches with [.get]: [None] stands for a record
    without that key. [board] and [scraped_at] are the two fields of
    [metadata]. *)
Record PostRecord := {
  thread_id : Z;
  post_id : Z;
  timestamp : Z;
  comment : option string;
  board : string;
  scraped_at : string
}.

(** A line of the raw file is what [json.loads] makes of it: a record, or
    text that does not parse. *)
Inductive line :=
  | Garbage (text : string)
  | Doc (record : PostRecord).

(** A classifier verdict is an opaque JSON value. *)
Definition verdict := string.

Record ResultRecord := {
  r_post_id : Z;
  r_thread_id : Z;
  r_timestamp : Z;
  r_text : string;
  openai : option verdict;
  perspective : option verdict;
  analyzed_at : string
}.

Inductive endpoint := OpenAI | Perspective.

(** What [requests.post] does: it raises ([NetFail]) or returns a response
    with a status code; [json] is the value the caller's decoding expression
    ([resp.json()["results"][0]], [resp.json()]) yields on the body, [None]
    when that expression raises. *)
Inductive reply :=
  | NetFail
  | Resp (status_code : Z) (json : option verdict).

Inductive exn :=
  | ConnectionError
  | DecodeError
  | ValueError
  | OSError
  | OverflowError.

Inductive outcome (A : Type) :=
  | Ret (a : A)
  | Raise (e : exn).
Arguments Ret {A} a.
Arguments Raise {A} e.

(** ** The outside world and the state of the system *)

Inductive event :=
  | EvCatalog
  | EvThread (tid : Z)
  | EvPost (tid pid : Z)
  | EvRequest (ep : endpoint) (text : string)
  | EvSleep (secs : Q).

(** The script of the outside world: the answer to the k-th call of each
    kind, counted from the current moment. [write_feed] tells of the k-th
    write to the raw file whether it goes through. *)
Record World := {
  catalog_feed : nat → option (list Page);
  thread_feed : nat → Z → option ThreadData;
  openai_feed : nat → reply;
  perspective_feed : nat → reply;
  uniform_feed : nat → Q;
  clock_feed : nat → string;
  write_feed : nat → bool
}.

(** The two files, the world still to come and the log of what was done.
    [EvPost] records that the post loop of the crawler reached a post; the
    other events are calls. The log is only written, never read. *)
Record Sys := {
  world : World;
  raw_file : list line;
  result_file : list ResultRecord;
  log : list event
}.

Definition shift {A} (f : nat → A) : nat → A := λ k, f (S k).

Definition set_world (w : World) (s : Sys) : Sys :=
  {| world := w; raw_file := raw_file s; result_file := result_file s;
     log := log s |}.

Definition note (e : event) (s : Sys) : Sys :=
  {| world := world s; raw_file := raw_file s; result_file := result_file s;
     log := log s ++ [e] |}.

(** [fetch_catalog()]: [None] when the request raises. *)
Definition fetch_catalog (s : Sys) : option (list Page) * Sys :=
  let w := world s in
  (catalog_feed w 0%nat,
   note EvCatalog (set_world
     {| catalog_feed := shift (catalog_feed w); thread_feed := thread_feed w;
        openai_feed := openai_feed w; perspective_feed := perspective_feed w;
        uniform_feed := uniform_feed w; clock_feed := clock_feed w;
        write_feed := write_feed w |} s)).

(** [fetch_thread(thread_id)]: [None] when the request raises. *)
Definition fetch_thread (tid : Z) (s : Sys) : option ThreadData * Sys :=
  let w := world s in
  (thread_feed w 0%nat tid,
   note (EvThread tid) (set_world
     {| catalog_feed := catalog_feed w; thread_feed := shift (thread_feed w);
        openai_feed := openai_feed w; perspective_feed := perspective_feed w;
        uniform_feed := uniform_feed w; clock_feed := clock_feed w;
        write_feed := write_feed w |} s)).

(** [requests.post] to one of the two classifier endpoints. *)
Definition requests_post (ep : endpoint) (text : string) (s : Sys)
  : reply * Sys :=
  let w := world s in
  match ep with
  | OpenAI =>
      (openai_feed w 0%nat,
       note (EvRequest OpenAI text) (set_world
         {| catalog_feed := catalog_feed w; thread_feed := thread_feed w;
            openai_feed := shift (openai_feed w);
            perspective_feed := perspective_feed w;
            uniform_feed := uniform_feed w; clock_feed := clock_feed w;
            write_feed := write_feed w |} s))
  | Perspective =>
      (perspective_feed w 0%nat,
       note (EvRequest Perspective text) (set_world
         {| catalog_feed := catalog_feed w; thread_feed := thread_feed w;
            openai_feed := openai_feed w;
            perspective_feed := shift (perspective_feed w);
            uniform_feed := uniform_feed w; clock_feed := clock_feed w;
            write_feed := write_feed w |} s))
  end.

(** [random.uniform(0, 1)] *)
Definition random_uniform (s : Sys) : Q * Sys :=
  let w := world s in
  (uniform_feed w 0%nat,
   set_world
     {| catalog_feed := catalog_feed w; thread_feed := thread_feed w;
        openai_feed := openai_feed w; perspective_feed := perspective_feed w;
        uniform_feed := shift (uniform_feed w); clock_feed := clock_feed w;
        write_feed := write_feed w |}
     s).

(** [datetime.utcnow().isoformat()] *)
Definition utcnow (s : Sys) : string * Sys :=
  let w := world s in
  (clock_feed w 0%nat,
   set_world
     {| catalog_feed := catalog_feed w; thread_feed := thread_feed w;
        openai_feed := openai_feed w; perspective_feed := perspective_feed w;
        uniform_feed := uniform_feed w; clock_feed := shift (clock_feed w);
        write_feed := write_feed w |}
     s).

(** [time.sleep(secs)] *)
Definition time_sleep (secs : Q) (s : Sys) : Sys := note (EvSleep secs) s.

(** The raw file with one more line for each record of [ps]. *)
Definition write_raw (ps : list PostRecord) (s : Sys) : Sys :=
  {| world := world s; raw_file := raw_file s ++ map Doc ps;
     result_file := result_file s; log := log s |}.

(** [save_posts(posts, RAW_FILE)]: one line per record, appended; when the
    disk refuses the write the call raises and the file stays as it was. *)
Definition save_posts (ps : list PostRecord) (s : Sys) : outcome unit * Sys :=
  let w := world s in
  let s :=
    set_world
      {| catalog_feed := catalog_feed w; thread_feed := thread_feed w;
         openai_feed := openai_feed w; perspective_feed := perspective_feed w;
         uniform_feed := uniform_feed w; clock_feed := clock_feed w;
         write_feed := shift (write_feed w) |} s in
  if write_feed w 0%nat then (Ret tt, write_raw ps s)
  else (Raise OSError, s).

(** [out.write(json.dumps(result) + newline)] on the result file. *)
Definition write_result (r : ResultRecord) (s : Sys) : Sys :=
  {| world := world s; raw_file := raw_file s;
     result_file := result_file s ++ [r]; log := log s |}.

(** ** The crawler *)

(** The two local variables of [collect_posts]. *)
Record Crawl := { seen_posts : gset Z; collected : Z }.

(** The dictionary [record] that the post loop builds for a new post. *)
Definition post_record (tid : Z) (post : Post) (now : string) : PostRecord :=
  {| thread_id := tid; post_id := no post; timestamp := time post;
     comment := Some (clean_comment (com post));
     board := "pol"; scraped_at := now |}.

(** [for post in thread_data["posts"]]: the result is the state at the end
    of the loop, reached by exhaustion or by [break], or the state in which
    the write of a record raised; the two local variables keep what they
    held at that moment. *)
Fixpoint post_loop (limit tid : Z) (ps : list Post) (c : Crawl) (s : Sys)
  : outcome unit * Crawl * Sys :=
  match ps with
  | [] => (Ret tt, c, s)
  | post :: rest =>
      let pid := no post in
      let s := note (EvPost tid pid) s in
      if decide (pid ∈ seen_posts c) then post_loop limit tid rest c s
      else
        let c := {| seen_posts := {[pid]} ∪ seen_posts c;
                    collected := collected c + 1 |} in
        let '(now, s) := utcnow s in
        let record := post_record tid post now in
        match save_posts [record] s with
        | (Raise e, s) => (Raise e, c, s)
        | (Ret _, s) =>
            if collected c >=? limit then (Ret tt, c, s)
            else post_loop limit tid rest c s
        end
  end.

(** [for thread in page["threads"]], with the [try] around each thread:
    its handler takes whatever the fetch or the post loop raises. *)
Fixpoint thread_loop (limit : Z) (ts : list Z) (c : Crawl) (s : Sys)
  : Crawl * Sys :=
  match ts with
  | [] => (c, s)
  | tid :: rest =>
      match fetch_thread tid s with
      | (Some thread_data, s) =>
          match post_loop limit tid (posts thread_data) c s with
          | (Ret _, c, s) =>
              let s := time_sleep 1 s in
              thread_loop limit rest c s
          | (Raise _, c, s) =>
              let s := time_sleep 2 s in
              thread_loop limit rest c s
          end
      | (None, s) =>
          let s := time_sleep 2 s in
          thread_loop limit rest c s
      end
  end.

(** [for page in catalog] *)
Fixpoint page_loop (limit : Z) (pages : list Page) (c : Crawl) (s : Sys)
  : Crawl * Sys :=
  match pages with
  | [] => (c, s)
  | page :: rest =>
      let '(c, s) := thread_loop limit (threads page) c s in
      if collected c >=? limit then (c, s)
      else page_loop limit rest c s
  end.

(** [while collected < limit]: [fuel] bounds the number of iterations; the
    boolean tells whether the loop ended by its own condition. *)
Fixpoint while_loop (fuel : nat) (limit : Z) (c : Crawl) (s : Sys)
  : bool * Crawl * Sys :=
  if collected c <? limit then
    match fuel with
    | O => (false, c, s)
    | S fuel =>
        match fetch_catalog s with
        | (Some catalog, s) =>
            let '(c, s) := page_loop limit catalog c s in
            while_loop fuel limit c s
        | (None, s) =>
            let s := time_sleep 5 s in
            while_loop fuel limit c s
        end
    end
  else (true, c, s).

Definition collect_posts (fuel : nat) (limit : Z) (s : Sys)
  : bool * Crawl * Sys :=
  while_loop fuel limit {| seen_posts := ∅; collected := 0 |} s.

(** ** The two classifier calls *)

(** The longest pause, in whole seconds, that [time.sleep] accepts: its
    clock counts nanoseconds in 63 bits, and a longer pause raises
    [OverflowError]. *)
Definition sleep_max : Z := 9223372036.

(** [for attempt in range(max_retries)] of [analyze_openai]: [todo] counts
    the iterations left, [attempt] is the loop variable. Nothing catches an
    exception of [requests.post], of the decoding of the body or of
    [time.sleep]. The draw of [random.uniform(0, 1)] lies between 0 and 1,
    so that the pause is too long for [time.sleep] exactly when
    [2 ^ attempt] exceeds [sleep_max], from attempt 34 on (from attempt 1024
    on the sum itself raises the same exception). *)
Fixpoint openai_attempts (text : string) (todo : nat) (attempt : Z) (s : Sys)
  : outcome (option verdict) * Sys :=
  match todo with
  | O => (Ret None, s)
  | S todo =>
      match requests_post OpenAI text s with
      | (NetFail, s) => (Raise ConnectionError, s)
      | (Resp status_code json, s) =>
          if status_code =? 200 then
            match json with
            | Some v => (Ret (Some v), s)
            | None => (Raise DecodeError, s)
            end
          else if status_code =? 429 then
            let '(u, s) := random_uniform s in
            let wait_time := (inject_Z (2 ^ attempt) + u)%Q in
            if 2 ^ attempt >? sleep_max then (Raise OverflowError, s)
            else
              let s := time_sleep wait_time s in
              openai_attempts text todo (attempt + 1) s
          else (Ret None, s)
      end
  end.

Definition analyze_openai (text : string) (max_retries : Z) (s : Sys)
  : outcome (option verdict) * Sys :=
  openai_attempts text (Z.to_nat max_retries) 0 s.

(** [analyze_perspective(text)]: the whole call sits in a [try] whose
    handler returns [None]. *)
Definition analyze_perspective (text : string) (s : Sys)
  : option verdict * Sys :=
  match requests_post Perspective text s with
  | (NetFail, s) => (None, s)
  | (Resp status_code json, s) =>
      if status_code =? 200 then (json, s) else (None, s)
  end.

(** ** The batched analysis *)

(** The reading loop of [analyze_posts_batched]: [i] is the index that
    [enumerate] gives the line, [acc] the list [posts] built so far. A kept
    post is paired with its stripped text (the key [text] added to it). *)
Fixpoint read_posts (limit i : Z) (lines : list line)
    (acc : list (PostRecord * string))
  : outcome (list (PostRecord * string)) :=
  match lines with
  | [] => Ret acc
  | l :: rest =>
      if i >=? limit then Ret acc
      else
        match l with
        | Garbage _ => Raise DecodeError
        | Doc post =>
            let text := Py.strip (default EmptyString (comment post)) in
            if Py.is_empty text then read_posts limit (i + 1) rest acc
            else read_posts limit (i + 1) rest (acc ++ [(post, text)])
        end
  end.

(** [range(0, stop, step)] for [stop >= 0]: a zero step raises, a negative
    one gives the empty range. *)
Definition py_range (stop step : Z) : outcome (list Z) :=
  if step =? 0 then Raise ValueError
  else if step <? 0 then Ret []
  else Ret (map (λ k, Z.of_nat k * step)
                (seq 0 (Z.to_nat ((stop + step - 1) / step)))).

(** [l[start:stop]] for indices that are not negative. *)
Definition slice {A} (l : list A) (start stop : Z) : list A :=
  take (Z.to_nat (stop - start)) (drop (Z.to_nat start) l).

(** The dictionary [result] written for an analysed post. *)
Definition result_record (post : PostRecord) (text : string)
    (oa_result persp_result : option verdict) (now : string) : ResultRecord :=
  {| r_post_id := post_id post; r_thread_id := thread_id post;
     r_timestamp := timestamp post; r_text := text;
     openai := oa_result; perspective := persp_result;
     analyzed_at := now |}.

(** The body of [for post in batch_posts]. *)
Definition analyze_post (p : PostRecord * string) (s : Sys)
  : outcome unit * Sys :=
  let '(post, text) := p in
  match analyze_openai text 5 s with
  | (Raise e, s) => (Raise e, s)
  | (Ret oa_result, s) =>
      let '(persp_result, s) := analyze_perspective text s in
      let '(now, s) := utcnow s in
      let result := result_record post text oa_result persp_result now in
      let s := write_result result s in
      let s := time_sleep 1 s in
      (Ret tt, s)
  end.

(** [for post in batch_posts] *)
Fixpoint batch_loop (batch : list (PostRecord * string)) (s : Sys)
  : outcome unit * Sys :=
  match batch with
  | [] => (Ret tt, s)
  | p :: rest =>
      match analyze_post p s with
      | (Raise e, s) => (Raise e, s)
      | (Ret _, s) => batch_loop rest s
      end
  end.

(** [for start in range(0, len(posts), batch_size)] *)
Fixpoint batches_loop (starts : list Z) (ps : list (PostRecord * string))
    (batch_size : Z) (s : Sys) : outcome unit * Sys :=
  match starts with
  | [] => (Ret tt, s)
  | start :: rest =>
      let batch_posts := slice ps start (start + batch_size) in
      match batch_loop batch_posts s with
      | (Raise e, s) => (Raise e, s)
      | (Ret _, s) =>
          let s := time_sleep 5 s in
          batches_loop rest ps batch_size s
      end
  end.

(** [analyze_posts_batched(RAW_FILE, RESULT_FILE, limit, batch_size)] *)
Definition analyze_posts_batched (limit batch_size : Z) (s : Sys)
  : outcome unit * Sys :=
  match read_posts limit 0 (raw_file s) [] with
  | Raise e => (Raise e, s)
  | Ret ps =>
      match py_range (Z.of_nat (length ps)) batch_size with
      | Raise e => (Raise e, s)
      | Ret starts => batches_loop starts ps batch_size s
      end
  end.

(** ** Sample worlds *)

Definition mk_post (n : Z) : Post :=
  {| no := n; time := 1700000000 + n; com := Some "hello<br>world" |}.

(** A board with one catalog page of two threads: thread 100 holds the posts
    1, 2, 3 and thread 200 the posts 4, 5. The classifier services are
    unreachable. *)
Definition board_world : World :=
  {| catalog_feed := λ _, Some [ {| threads := [100; 200] |} ];
     thread_feed := λ _ tid,
       if tid =? 100 then Some {| posts := map mk_post [1; 2; 3] |}
       else if tid =? 200 then Some {| posts := map mk_post [4; 5] |}
       else None;
     openai_feed := λ _, NetFail;
     perspective_feed := λ _, NetFail;
     uniform_feed := λ _, 0%Q;
     clock_feed := λ _, "2024-01-01T00:00:00";
     write_feed := λ _, true |}.

Definition start (w : World) (raw : list line) : Sys :=
  {| world := w; raw_file := raw; result_file := []; log := [] |}.

(** The [post_id]s of the records of a file, in file order. *)
Definition line_id (l : line) : option Z :=
  match l with Garbage _ => None | Doc r => Some (post_id r) end.

Definition file_ids (f : list line) : list Z := omap line_id f.

(** ** Vocabulary of the statements *)

(** The threads fetched, in that order. *)
Definition fetch_id (e : event) : option Z :=
  match e with EvThread tid => Some tid | _ => None end.

Definition fetched (l : list event) : list Z := omap fetch_id l.

(** A list without its repetitions, every element at its first place. *)
Fixpoint keep_first (l : list Z) : list Z :=
  match l with
  | [] => []
  | x :: r => x :: filter (λ y, y ≠ x) (keep_first r)
  end.

(** The system [s] with the lines [old] in front of its raw file. *)
Definition prepend (old : list line) (s : Sys) : Sys :=
  {| world := world s; raw_file := old ++ raw_file s;
     result_file := result_file s; log := log s |}.

(** The lines that a run added to a raw file that held [old] before. *)
Definition appended (old : list line) (s : Sys) : list line :=
  drop (length old) (raw_file s).

(** Resuming over a persisted stream: no identifier of a record appended by
    the run is the identifier of a record that was already there. *)
Definition resume_is_duplicate_free (fuel : nat) (limit : Z) (w : World)
    (old : list line) : Prop :=
  ∀ id, id ∈ file_ids (appended old (collect_posts fuel limit (start w old)).2)
        → id ∉ file_ids old.

(** A raw file that holds post 1 of thread 100 from an earlier run. *)
Definition earlier_run : list line :=
  [Doc (post_record 100 (mk_post 1) "2023-12-31T00:00:00")].

(** The requests of a log: endpoint and text sent, in order. *)
Definition request_of (e : event) : option (endpoint * string) :=
  match e with EvRequest ep text => Some (ep, text) | _ => None end.

Definition requests (l : list event) : list (endpoint * string) :=
  omap request_of l.

(** The pauses of a log, in order. *)
Definition sleep_of (e : event) : option Q :=
  match e with EvSleep secs => Some secs | _ => None end.

Definition sleeps (l : list event) : list Q := omap sleep_of l.

(** What a throttled attempt leaves in the log: the request, then a pause
    of [2 ^ (a + i)] seconds plus the random draw, for the [i]-th attempt of
    a loop whose counter started at [a]. *)
Definition backoff_step (text : string) (u : nat → Q) (a : Z) (i : nat)
  : list event :=
  [EvRequest OpenAI text; EvSleep (inject_Z (2 ^ (a + Z.of_nat i)) + u i)%Q].

Definition backoff_events (text : string) (u : nat → Q) (a : Z) (k : nat)
  : list event :=
  concat (map (backoff_step text u a) (seq 0 k)).

(** A world whose first classifier service answers 429 three times and then
    delivers a verdict, and one where it answers 429 for ever. *)
Definition throttled_world (n : nat) : World :=
  {| catalog_feed := λ _, None;
     thread_feed := λ _ _, None;
     openai_feed := λ i,
       if (i <? n)%nat then Resp 429 None else Resp 200 (Some "flagged");
     perspective_feed := λ _, Resp 200 (Some "toxic");
     uniform_feed := λ i, (1 # Pos.of_nat (i + 2))%Q;
     clock_feed := λ _, "2024-01-01T00:00:00";
     write_feed := λ _, true |}.

(** The verdict [analyze_perspective] draws from an answer of its service. *)
Definition perspective_verdict (r : reply) : option verdict :=
  match r with
  | NetFail => None
  | Resp status_code json => if status_code =? 200 then json else None
  end.

(** The reader's view of the raw file. *)
Definition is_garbage (l : line) : bool :=
  match l with Garbage _ => true | Doc _ => false end.

(** The post and stripped text kept for a line, if any. *)
Definition keep (l : line) : option (PostRecord * string) :=
  match l with
  | Garbage _ => None
  | Doc post =>
      let text := Py.strip (default EmptyString (comment post)) in
      if Py.is_empty text then None else Some (post, text)
  end.

Definition retained (lines : list line) : list (PostRecord * string) :=
  omap keep lines.

Definition first_lines (limit : Z) (lines : list line) : list line :=
  take (Z.to_nat limit) lines.

(** The reader as the specification words it: malformed lines are passed
    over and the reading goes on. *)
Definition read_skips_garbage (limit : Z) (lines : list line) : Prop :=
  read_posts limit 0 lines [] = Ret (retained (first_lines limit lines)).

(** A raw file whose first line was cut short by a crash. *)
Definition torn_file : list line :=
  [Garbage "{'thread_id': 100, 'post_"; Doc (post_record 100 (mk_post 2) "t2")].

(** What identifies the post of a kept line and of a result record. *)
Definition post_key (p : PostRecord * string) : Z * Z * Z * string :=
  (post_id p.1, thread_id p.1, timestamp p.1, p.2).

Definition result_key (r : ResultRecord) : Z * Z * Z * string :=
  (r_post_id r, r_thread_id r, r_timestamp r, r_text r).

(** The batches that the loop over [starts] cuts out of [ps]. *)
Definition batches (ps : list (PostRecord * string)) (batch_size : Z)
    (starts : list Z) : list (list (PostRecord * string)) :=
  map (λ start, slice ps start (start + batch_size)) starts.

(** From [s] to [s'] the first [n] posts of [ps] were analysed, in order:
    the raw file is as before, the result file grew by one record for each
    of them, and every request sent carried the text of a post of [ps]. *)
Definition done_upto (ps : list (PostRecord * string)) (n : nat)
    (s s' : Sys) : Prop :=
  raw_file s' = raw_file s
  ∧ (∃ rs, result_file s' = result_file s ++ rs
           ∧ map result_key rs = map post_key (take n ps))
  ∧ (∃ qs, requests (log s') = requests (log s) ++ qs
           ∧ Forall (λ q, q.2 ∈ map snd ps) qs).

(** A line whose comment is empty once stripped. *)
Definition is_blank (l : line) : bool :=
  match l with
  | Garbage _ => false
  | Doc post => Py.is_empty (Py.strip (default EmptyString (comment post)))
  end.

Definition count (f : line → bool) (lines : list line) : nat :=
  length (List.filter f lines).

(** A record whose comment is white space only, and one that has text. *)
Definition blank_record : PostRecord :=
  {| thread_id := 100; post_id := 7; timestamp := 1700000007;
     comment := Some "   "; board := "pol"; scraped_at := "t7" |}.

Definition good_record : PostRecord :=
  {| thread_id := 100; post_id := 8; timestamp := 1700000008;
     comment := Some " >>7 agreed "; board := "pol"; scraped_at := "t8" |}.

(** A raw file of [n] blank records followed by [n] records with text. *)
Definition blanks_first (n : nat) : list line :=
  replicate n (Doc blank_record) ++ replicate n (Doc good_record).

(** ** What the board serves *)








Definition writes_succeed (feed : nat → bool) : Prop := ∀ k, feed k = true.



(** The first classifier is unreachable, the second one answers. *)
Definition first_down_world : World :=
  {| catalog_feed := λ _, None;
     thread_feed := λ _ _, None;
     openai_feed := λ _, NetFail;
     perspective_feed := λ _, Resp 200 (Some "toxic");
     uniform_feed := λ _, 0%Q;
     clock_feed := λ _, "2024-01-01T00:00:00";
     write_feed := λ _, true |}.

(** What the loops of the crawler maintain towards the raw file: the
    records appended so far carry pairwise distinct identifiers, all of
    them in [seen_posts]. *)
Definition crawl_inv (old : list line) (c : Crawl) (s : Sys) : Prop :=
  ∃ recs : list PostRecord,
    raw_file s = old ++ map Doc recs
    ∧ NoDup (map post_id recs)
    ∧ ∀ id, id ∈ map post_id recs → id ∈ seen_posts c.


(** The counters against the file: [collected] is the size of
    [seen_posts], and the file has gained at most that many records. *)
Definition crawl_counts (old : list line) (c : Crawl) (s : Sys) : Prop :=
  ∃ recs : list PostRecord,
    raw_file s = old ++ map Doc recs
    ∧ collected c = Z.of_nat (size (seen_posts c))
    ∧ (length recs ≤ size (seen_posts c))%nat.

(** With every write going through the file keeps up with the counters. *)
Definition crawl_counts_exact (old : list line) (c : Crawl) (s : Sys)
  : Prop :=
  writes_succeed (write_feed (world s))
  ∧ ∃ recs : list PostRecord,
      raw_file s = old ++ map Doc recs
      ∧ length recs = size (seen_posts c).

(** ** Further vocabulary *)

(** The character [c] occurs in [s]. *)
Fixpoint mentions (c : ascii) (s : string) : bool :=
  match s with
  | EmptyString => false
  | String d s' => if decide (c = d) then true else mentions c s'
  end.

(** Entities of the board's markup that [clean_comment] has no pass for. *)
Definition other_entities : list string := ["&amp;"; "&lt;"; "&#039;"].

(** The characters of a string. *)
Fixpoint chars (s : string) : list ascii :=
  match s with
  | EmptyString => []
  | String c s' => c :: chars s'
  end.

(** The first, respectively the last, character of [s] is white space. *)
Definition head_space (s : string) : bool :=
  match s with
  | EmptyString => false
  | String c _ => Py.isspace c
  end.

Fixpoint last_space (s : string) : bool :=
  match s with
  | EmptyString => false
  | String c EmptyString => Py.isspace c
  | String _ s' => last_space s'
  end.

(** Every character of [s] is white space. *)
Definition all_space (s : string) : Prop :=
  Forall (λ c, Py.isspace c = true) (chars s).

(** Every page of every catalog the board will serve lists at most [B]
    threads. *)
Definition pages_bounded (B : nat) (feed : nat → option (list Page)) : Prop :=
  ∀ k catalog page,
    feed k = Some catalog → page ∈ catalog → (length (threads page) ≤ B)%nat.

(** The board of C1 with a raw file that cannot be written: every write
    raises. *)
Definition unwritable_world : World :=
  {| catalog_feed := catalog_feed board_world;
     thread_feed := thread_feed board_world;
     openai_feed := openai_feed board_world;
     perspective_feed := perspective_feed board_world;
     uniform_feed := uniform_feed board_world;
     clock_feed := clock_feed board_world;
     write_feed := λ _, false |}.

(** What the attempt loop of [analyze_openai] returns on an answer that ends
    it; [None] for the one answer after which it goes on, status 429. *)
Definition openai_terminal (r : reply) : option (outcome (option verdict)) :=
  match r with
  | NetFail => Some (Raise ConnectionError)
  | Resp status_code json =>
      if status_code =? 200 then
        Some (match json with
              | Some v => Ret (Some v)
              | None => Raise DecodeError
              end)
      else if status_code =? 429 then None
      else Some (Ret None)
  end.

(** A world whose first classifier service answers 429 twice and then
    fails with status 503. *)
Definition failing_world : World :=
  {| catalog_feed := λ _, None;
     thread_feed := λ _ _, None;
     openai_feed := λ i,
       if (i <? 2)%nat then Resp 429 None else Resp 503 None;
     perspective_feed := λ _, Resp 200 (Some "toxic");
     uniform_feed := λ _, (1 # 2)%Q;
     clock_feed := λ _, "2024-01-01T00:00:00";
     write_feed := λ _, true |}.

(** The first classifier never throttles, fails or answers nonsense: each
    answer ends the attempt loop with a verdict or with [None]. *)
Definition answers_plainly (feed : nat → reply) : Prop :=
  ∀ k, ∃ o, openai_terminal (feed k) = Some (Ret o).

Definition openai_verdict (r : reply) : option verdict :=
  match openai_terminal r with
  | Some (Ret o) => o
  | _ => None
  end.

(** The record of the post that is the [i]-th to be analysed from a state
    whose world is [w]: it holds the [i]-th answer of each service and the
    [i]-th reading of the clock. *)
Definition expected_result (w : World) (i : nat) (p : PostRecord * string)
  : ResultRecord :=
  result_record p.1 p.2
    (openai_verdict (openai_feed w i))
    (perspective_verdict (perspective_feed w i))
    (clock_feed w i).

(** What the analysis of one post, and of one batch, leaves in the log when
    the first classifier answers at the first attempt. *)
Definition post_events (p : PostRecord * string) : list event :=
  [EvRequest OpenAI p.2; EvRequest Perspective p.2; EvSleep 1].

Definition batch_events (batch : list (PostRecord * string)) : list event :=
  concat (map post_events batch) ++ [EvSleep 5].

(** From [s] to [s'] each classifier and the clock were consulted [n]
    times, and nothing else of the world or of the raw file changed. *)
Definition moved (n : nat) (s s' : Sys) : Prop :=
  (∀ i, openai_feed (world s') i = openai_feed (world s) (n + i)%nat)
  ∧ (∀ i, perspective_feed (world s') i
          = perspective_feed (world s) (n + i)%nat)
  ∧ (∀ i, clock_feed (world s') i = clock_feed (world s) (n + i)%nat)
  ∧ raw_file s' = raw_file s.

(** A service that delivers a verdict for every request. *)
Definition plain_world : World :=
  {| catalog_feed := λ _, None;
     thread_feed := λ _ _, None;
     openai_feed := λ _, Resp 200 (Some "flagged");
     perspective_feed := λ _, Resp 200 (Some "toxic");
     uniform_feed := λ _, 0%Q;
     clock_feed := λ _, "2024-01-01T00:00:00";
     write_feed := λ _, true |}.

(** The two requests made for a post. *)
Definition post_requests (p : PostRecord * string)
  : list (endpoint * string) :=
  [(OpenAI, p.2); (Perspective, p.2)].

(** The pauses of a batch: one second after each post, five at the end. *)
Definition batch_sleeps (batch : list (PostRecord * string)) : list Q :=
  replicate (length batch) 1%Q ++ [5%Q].

(** ** The script *)

(** The main block: [collect_posts(limit=5000)], then
    [analyze_posts_batched(limit=1000, batch_size=5)]. [None] stands for a
    crawl that is still going on when [fuel] rounds are over. *)
Definition main (fuel : nat) (s : Sys) : option (outcome unit * Sys) :=
  let '(finished, _, s) := collect_posts fuel 5000 s in
  if finished then Some (analyze_posts_batched 1000 5 s) else None.

(** A board with a single thread of 5000 posts, and a raw file of 1000
    blank records left by earlier runs. *)
Definition long_thread_world : World :=
  {| catalog_feed := λ _, Some [ {| threads := [100] |} ];
     thread_feed := λ _ _,
       Some {| posts := map (λ k, mk_post (Z.of_nat k)) (seq 1 5000) |};
     openai_feed := λ _, Resp 200 (Some "flagged");
     perspective_feed := λ _, Resp 200 (Some "toxic");
     uniform_feed := λ _, 0%Q;
     clock_feed := λ _, "2024-01-01T00:00:00";
     write_feed := λ _, true |}.

Definition thousand_blanks : list line := replicate 1000 (Doc blank_record).
(** * Properties *)

(** ** Strings *)

Module PyFacts.
Import Py.

Lemma app_cons c s t : String c s +:+ t = String c (s +:+ t).
Proof. reflexivity. Qed.

Lemma app_nil_l t : EmptyString +:+ t = t.
Proof. reflexivity. Qed.

Lemma app_nil_r s : s +:+ EmptyString = s.
Proof. induction s as [|c s IH]; [done|]. by rewrite app_cons, IH. Qed.

Lemma app_assoc s t u : (s +:+ t) +:+ u = s +:+ t +:+ u.
Proof. induction s as [|c s IH]; [done|]. by rewrite !app_cons, IH. Qed.

Lemma app_length s t :
  String.length (s +:+ t) = (String.length s + String.length t)%nat.
Proof. induction s as [|c s IH]; [done|]. rewrite app_cons. simpl. by rewrite IH. Qed.

Lemma prefix_cons a p b s :
  prefix (String a p) (String b s) = true ↔ a = b ∧ prefix p s = true.
Proof.
  simpl. destruct (decide (a = b)) as [->|Hne]; [tauto|].
  split; [done|]. by intros [? _].
Qed.

Lemma prefix_spec p s : prefix p s = true ↔ ∃ t, s = p +:+ t.
Proof.
  revert s. induction p as [|a p IH]; intros s.
  - split; [eauto|done].
  - destruct s as [|b s].
    + split; [done|]. by intros [t ?].
    + rewrite prefix_cons, IH. split.
      * intros [-> [t ->]]. by exists t.
      * intros [t Ht]. rewrite app_cons in Ht. injection Ht as Hc Hs. subst. eauto.
Qed.

Lemma prefix_app p t : prefix p (p +:+ t) = true.
Proof. apply prefix_spec. eauto. Qed.

Lemma prefix_app_l p a r : prefix p a = true → prefix p (a +:+ r) = true.
Proof.
  rewrite !prefix_spec. intros [t ->]. exists (t +:+ r). apply app_assoc.
Qed.

(** Two prefixes of one string are comparable. *)
Lemma prefix_total x y z :
  prefix x z = true → prefix y z = true → prefix x y = true ∨ prefix y x = true.
Proof.
  revert y z. induction x as [|a x IH]; intros y z Hx Hy; [by left|].
  destruct y as [|b y]; [by right|].
  destruct z as [|c z]; [done|].
  apply prefix_cons in Hx as [-> Hx]. apply prefix_cons in Hy as [-> Hy].
  destruct (IH y z Hx Hy); [left|right]; by apply prefix_cons.
Qed.

Lemma replace_from_skip old new x b :
  replace_from old new (String.length x) (x +:+ b) = replace_from old new 0 b.
Proof. induction x as [|c x IH]; [done|]. by rewrite app_cons. Qed.

(** A match at the head is replaced and the scan resumes behind it. *)
Lemma replace_from_hit old new b :
  old ≠ EmptyString →
  replace_from old new 0 (old +:+ b) = new +:+ replace_from old new 0 b.
Proof.
  intros Hne. destruct old as [|c o]; [done|].
  pose proof (prefix_app (String c o) b) as Hp.
  rewrite app_cons in Hp |- *.
  cbn [replace_from]. rewrite Hp. f_equal.
  replace (String.length (String c o) - 1)%nat with (String.length o)
    by (simpl; lia).
  apply replace_from_skip.
Qed.

Lemma replace_from_miss old new c s :
  prefix old (String c s) = false →
  replace_from old new 0 (String c s) = String c (replace_from old new 0 s).
Proof. intros Hp. cbn [replace_from]. by rewrite Hp. Qed.

Lemma overlaps_tail o m : overlaps (tail o) m = true → overlaps o m = true.
Proof.
  destruct o as [|c o]; [done|]. simpl. intros ->. by rewrite orb_true_r.
Qed.

(** A match that begins inside [a] and ends beyond it forces a suffix of
    the pattern to start like what follows [a]. *)
Lemma straddle old a m b :
  a ≠ EmptyString →
  prefix old (a +:+ m +:+ b) = true →
  prefix old a = false →
  overlaps (tail old) m = true.
Proof.
  revert old. induction a as [|c a IH]; intros old Hne Hp Hn; [done|].
  destruct old as [|d o]; [done|].
  rewrite app_cons in Hp. apply prefix_cons in Hp as [-> Hp].
  assert (prefix o a = false) as Hn'.
  { destruct (prefix o a) eqn:E; [|done].
    rewrite <- Hn. symmetry. by apply prefix_cons. }
  simpl. destruct a as [|c' a].
  - destruct o as [|e o]; [done|].
    rewrite app_nil_l in Hp.
    cbn [overlaps].
    destruct (prefix_total (String e o) m (m +:+ b) Hp (prefix_app m b))
      as [-> | ->]; [done|]. by rewrite orb_true_r.
  - apply overlaps_tail, IH; done.
Qed.

Lemma replace_from_app old new m b a :
  old ≠ EmptyString →
  overlaps (tail old) m = false →
  replace_from old new 0 (a +:+ m +:+ b)
  = replace_from old new 0 a +:+ replace_from old new 0 (m +:+ b).
Proof.
  intros Hne Hov.
  remember (String.length a) as n eqn:Hn.
  revert a Hn. induction (lt_wf n) as [n _ IH]. intros a ->.
  destruct a as [|c a]; [done|].
  destruct (prefix old (String c a +:+ m +:+ b)) eqn:Hp.
  - destruct (prefix old (String c a)) eqn:Hq.
    + apply prefix_spec in Hq as [a' Ha]. rewrite Ha.
      rewrite app_assoc, !replace_from_hit by done.
      rewrite app_assoc. f_equal.
      apply (IH (String.length a')); [|done].
      rewrite Ha, app_length. destruct old; [done|simpl; lia].
    + pose proof (straddle old (String c a) m b) as Hs.
      rewrite Hs in Hov; done.
  - assert (prefix old (String c a) = false) as Hq.
    { destruct (prefix old (String c a)) eqn:E; [|done].
      by rewrite (prefix_app_l _ _ _ E) in Hp. }
    rewrite app_cons in Hp |- *.
    rewrite !replace_from_miss, app_cons by done. f_equal.
    apply (IH (String.length a)); [simpl; lia|done].
Qed.

(** A piece that no match can start in is copied. *)
Lemma replace_from_copy old new m b :
  overlaps m old = false →
  replace_from old new 0 (m +:+ b) = m +:+ replace_from old new 0 b.
Proof.
  induction m as [|c m IH]; intros Hov; [done|].
  cbn [overlaps] in Hov.
  apply orb_false_iff in Hov as [Hov Hm].
  apply orb_false_iff in Hov as [H1 H2].
  rewrite app_cons. rewrite replace_from_miss.
  - by rewrite IH.
  - destruct (prefix old (String c (m +:+ b))) eqn:E; [|done].
    rewrite <- app_cons in E.
    destruct (prefix_total _ _ _ E (prefix_app (String c m) b)); congruence.
Qed.


(** [replace] on a string cut around a piece the pattern cannot touch. *)
Lemma replace_around old new m a b :
  old ≠ EmptyString →
  overlaps (tail old) m = false →
  overlaps m old = false →
  replace old new (a +:+ m +:+ b)
  = replace old new a +:+ m +:+ replace old new b.
Proof.
  intros Hne H1 H2. unfold replace. destruct old as [|c o] eqn:E; [done|].
  rewrite <- E in *.
  by rewrite replace_from_app, replace_from_copy.
Qed.

End PyFacts.

(** ** The text normalizer *)

Section Normalizer.
Import Py PyFacts.

Lemma clean_comment_passes s :
  clean_comment (Some s)
  = replace "&quot;" dquote (replace "&gt;" ">" (replace "<br>" newline s)).
Proof. by destruct s. Qed.


End Normalizer.

(** ** First occurrences *)

Section KeepFirst.

Lemma keep_first_elem x l : x ∈ keep_first l ↔ x ∈ l.
Proof.
  induction l as [|y l IH]; [done|]. simpl.
  rewrite !elem_of_cons, list_elem_of_filter, IH.
  destruct (decide (x = y)); tauto.
Qed.

Lemma keep_first_NoDup l : NoDup (keep_first l).
Proof.
  induction l as [|y l IH]; simpl; [constructor|].
  constructor; [|by apply NoDup_filter].
  rewrite list_elem_of_filter. tauto.
Qed.


End KeepFirst.

(** ** The crawler *)

Section Crawler.

Lemma post_loop_cons limit tid post rest c s :
  post_loop limit tid (post :: rest) c s
  = let s1 := note (EvPost tid (no post)) s in
    if decide (no post ∈ seen_posts c) then post_loop limit tid rest c s1
    else
      let c' := {| seen_posts := {[no post]} ∪ seen_posts c;
                   collected := collected c + 1 |} in
      let saved :=
        save_posts [post_record tid post (utcnow s1).1] (utcnow s1).2 in
      match saved.1 with
      | Raise e => (Raise e, c', saved.2)
      | Ret _ =>
          if collected c' >=? limit then (Ret tt, c', saved.2)
          else post_loop limit tid rest c' saved.2
      end.
Proof.
  cbn [post_loop]. cbv zeta.
  destruct (decide (no post ∈ seen_posts c)); [done|].
  cbn [utcnow fst snd]. unfold save_posts. cbv zeta.
  by destruct (write_feed _ 0%nat).
Qed.

Lemma thread_loop_cons limit tid rest c s :
  thread_loop limit (tid :: rest) c s
  = match (fetch_thread tid s).1 with
    | Some thread_data =>
        let r := post_loop limit tid (posts thread_data) c
                   (fetch_thread tid s).2 in
        thread_loop limit rest r.1.2
          (time_sleep (match r.1.1 with Ret _ => 1 | Raise _ => 2 end) r.2)
    | None => thread_loop limit rest c (time_sleep 2 (fetch_thread tid s).2)
    end.
Proof.
  cbn [thread_loop]. unfold fetch_thread. cbn [fst snd].
  destruct (thread_feed (world s) 0%nat tid) as [td|]; [|done].
  by destruct (post_loop limit tid (posts td) c _) as [[[[]|e] c1] s1].
Qed.

(** *** A rule for the four loops

    A property of the two local variables and of the system that survives
    a log entry, a step of the board or of the clock, and the attempt to
    write the record of a new post, survives every loop of the crawler. *)
Section LoopRule.
Variable I : Crawl → Sys → Prop.
Hypothesis I_note : ∀ c s e, request_of e = None → I c s → I c (note e s).
Hypothesis I_world : ∀ c s w,
  catalog_feed w = catalog_feed (world s) →
  openai_feed w = openai_feed (world s) →
  perspective_feed w = perspective_feed (world s) →
  uniform_feed w = uniform_feed (world s) →
  write_feed w = write_feed (world s) →
  I c s → I c (set_world w s).
Hypothesis I_catalog : ∀ c s, I c s → I c (fetch_catalog s).2.
Hypothesis I_save : ∀ c s tid post now,
  no post ∉ seen_posts c → I c s →
  I {| seen_posts := {[no post]} ∪ seen_posts c;
       collected := collected c + 1 |}
    (save_posts [post_record tid post now] s).2.

Lemma post_loop_rule limit tid ps c s :
  I c s →
  I (post_loop limit tid ps c s).1.2 (post_loop limit tid ps c s).2.
Proof.
  revert c s. induction ps as [|post rest IH]; intros c s Hc; [done|].
  rewrite post_loop_cons. cbv zeta.
  destruct (decide (no post ∈ seen_posts c)) as [Hin|Hin].
  - by apply IH, I_note.
  - match goal with
    | |- context [save_posts [?r] ?s0] =>
        assert (I {| seen_posts := {[no post]} ∪ seen_posts c;
                     collected := collected c + 1 |} (save_posts [r] s0).2)
          as Hnew;
        [|destruct (save_posts [r] s0) as [[[]|e] s2]]
    end.
    { apply I_save; [done|]. apply I_world; [done..|]. by apply I_note. }
    + cbn [fst snd] in *. destruct (_ >=? limit); [exact Hnew|].
      apply IH, Hnew.
    + exact Hnew.
Qed.

Lemma thread_loop_rule limit ts c s :
  I c s → I (thread_loop limit ts c s).1 (thread_loop limit ts c s).2.
Proof.
  revert c s. induction ts as [|tid rest IH]; intros c s Hc; [done|].
  rewrite thread_loop_cons.
  assert (I c (fetch_thread tid s).2) as Hf.
  { apply I_note; [done|]. by apply I_world. }
  destruct (fetch_thread tid s).1 as [td|].
  - cbv zeta. apply IH, I_note.
    { by destruct (post_loop _ _ _ _ _).1.1. }
    by apply post_loop_rule.
  - apply IH. by apply I_note.
Qed.

Lemma page_loop_rule limit pages c s :
  I c s → I (page_loop limit pages c s).1 (page_loop limit pages c s).2.
Proof.
  revert c s. induction pages as [|page rest IH]; intros c s Hc; [done|].
  cbn [page_loop].
  pose proof (thread_loop_rule limit (threads page) c s Hc) as Ht.
  destruct (thread_loop limit (threads page) c s) as [c1 s1].
  destruct (collected c1 >=? limit); [done|]. by apply IH.
Qed.

Lemma while_loop_rule fuel limit c s :
  I c s → I (while_loop fuel limit c s).1.2 (while_loop fuel limit c s).2.
Proof.
  revert c s. induction fuel as [|fuel IH]; intros c s Hc.
  - simpl. by destruct (collected c <? limit).
  - cbn [while_loop]. destruct (collected c <? limit); [|done].
    unfold fetch_catalog.
    destruct (catalog_feed (world s) 0%nat) as [catalog|].
    + match goal with
      | |- context [page_loop limit catalog c ?s0] =>
          pose proof (page_loop_rule limit catalog c s0) as Hp;
          destruct (page_loop limit catalog c s0) as [c1 s1]
      end.
      apply IH, Hp. by apply (I_catalog c s).
    + apply IH. apply I_note; [done|]. by apply (I_catalog c s).
Qed.

End LoopRule.

Lemma file_ids_app f g : file_ids (f ++ g) = file_ids f ++ file_ids g.
Proof. apply omap_app. Qed.

Lemma file_ids_docs recs : file_ids (map Doc recs) = map post_id recs.
Proof. induction recs as [|r recs IH]; [done|]. simpl. by f_equal. Qed.

(** *** No identifier twice *)

Lemma while_loop_inv old fuel limit c s :
  crawl_inv old c s →
  crawl_inv old (while_loop fuel limit c s).1.2 (while_loop fuel limit c s).2.
Proof.
  apply (while_loop_rule (crawl_inv old)).
  - done.
  - done.
  - done.
  - intros c' s' tid post now Hin (recs & Hraw & Hnd & Hseen).
    unfold save_posts. cbv zeta. destruct (write_feed (world s') 0%nat).
    + exists (recs ++ [post_record tid post now]). simpl.
      rewrite Hraw, !map_app, <- (assoc_L (++)). simpl.
      split; [done|]. split.
      * apply NoDup_app. split; [done|]. split; [|apply NoDup_singleton].
        intros id Hid ->%list_elem_of_singleton. by apply Hin, Hseen.
      * intros id [Hid| ->%list_elem_of_singleton]%elem_of_app.
        -- apply elem_of_union. right. by apply Hseen.
        -- apply elem_of_union. left. by apply elem_of_singleton.
    + exists recs. simpl. split; [done|]. split; [done|].
      intros id Hid. apply elem_of_union. right. by apply Hseen.
Qed.

Lemma crawl_inv_start old w :
  crawl_inv old {| seen_posts := ∅; collected := 0 |} (start w old).
Proof.
  exists []. simpl. rewrite app_nil_r. split; [done|].
  split; [constructor|]. intros id Hid. by apply elem_of_nil in Hid.
Qed.

Lemma collect_posts_NoDup fuel limit w old :
  NoDup (file_ids (appended old (collect_posts fuel limit (start w old)).2)).
Proof.
  destruct (while_loop_inv old fuel limit _ _ (crawl_inv_start old w))
    as (recs & Hraw & Hnd & _).
  unfold appended, collect_posts.
  by rewrite Hraw, drop_app_length, file_ids_docs.
Qed.

(** *** The file is never read *)

Lemma save_posts_prepend old rs s :
  save_posts rs (prepend old s)
  = ((save_posts rs s).1, prepend old (save_posts rs s).2).
Proof.
  unfold save_posts. cbv zeta. cbn [world prepend set_world].
  destruct (write_feed (world s) 0%nat); [|done].
  unfold write_raw, prepend. simpl. by rewrite (assoc_L (++)).
Qed.

Lemma post_loop_prepend old limit tid ps c s :
  post_loop limit tid ps c (prepend old s)
  = ((post_loop limit tid ps c s).1, prepend old (post_loop limit tid ps c s).2).
Proof.
  revert c s. induction ps as [|post rest IH]; intros c s; [done|].
  rewrite !post_loop_cons. cbv zeta.
  change (note ?e (prepend old s)) with (prepend old (note e s)).
  destruct (decide (no post ∈ seen_posts c)); [apply IH|].
  change (utcnow (prepend old ?s0)) with ((utcnow s0).1, prepend old (utcnow s0).2).
  cbn [fst snd]. rewrite save_posts_prepend. cbn [fst snd].
  destruct (save_posts _ _).1; [|done].
  destruct (_ >=? limit); [done|]. apply IH.
Qed.

Lemma thread_loop_prepend old limit ts c s :
  thread_loop limit ts c (prepend old s)
  = ((thread_loop limit ts c s).1, prepend old (thread_loop limit ts c s).2).
Proof.
  revert c s. induction ts as [|tid rest IH]; intros c s; [done|].
  rewrite !thread_loop_cons.
  change (fetch_thread tid (prepend old s))
    with ((fetch_thread tid s).1, prepend old (fetch_thread tid s).2).
  cbn [fst snd]. destruct (fetch_thread tid s).1 as [td|].
  - cbv zeta. rewrite post_loop_prepend. cbn [fst snd].
    change (time_sleep ?q (prepend old ?x)) with (prepend old (time_sleep q x)).
    apply IH.
  - change (time_sleep ?q (prepend old ?x)) with (prepend old (time_sleep q x)).
    apply IH.
Qed.

Lemma page_loop_prepend old limit pages c s :
  page_loop limit pages c (prepend old s)
  = ((page_loop limit pages c s).1, prepend old (page_loop limit pages c s).2).
Proof.
  revert c s. induction pages as [|page rest IH]; intros c s; [done|].
  cbn [page_loop]. rewrite thread_loop_prepend.
  destruct (thread_loop limit (threads page) c s) as [c1 s1]. cbn [fst snd].
  destruct (collected c1 >=? limit); [done|]. apply IH.
Qed.

Lemma while_loop_prepend old fuel limit c s :
  while_loop fuel limit c (prepend old s)
  = ((while_loop fuel limit c s).1, prepend old (while_loop fuel limit c s).2).
Proof.
  revert c s. induction fuel as [|fuel IH]; intros c s.
  - simpl. by destruct (collected c <? limit).
  - cbn [while_loop]. destruct (collected c <? limit); [|done].
    change (fetch_catalog (prepend old s))
      with ((fetch_catalog s).1, prepend old (fetch_catalog s).2).
    destruct (fetch_catalog s) as [[catalog|] s1]; cbn [fst snd].
    + rewrite page_loop_prepend.
      destruct (page_loop limit catalog c s1) as [c2 s2]. cbn [fst snd].
      apply IH.
    + apply (IH c (time_sleep 5 s1)).
Qed.

Lemma collect_posts_prepend fuel limit w old :
  collect_posts fuel limit (start w old)
  = ((collect_posts fuel limit (start w [])).1,
     prepend old (collect_posts fuel limit (start w [])).2).
Proof.
  unfold collect_posts. rewrite <- while_loop_prepend. f_equal.
  unfold prepend, start. simpl. by rewrite app_nil_r.
Qed.

(** C1. On a board whose single catalog page lists the threads 100 (posts
    1, 2, 3) and 200 (posts 4, 5), [collect_posts] with a target of 3 ends
    with four records in the raw file: the [break] that follows the third
    record leaves the post loop only, thread 200 is fetched all the same and
    its first post is appended before the page loop stops. *)
Theorem collect_posts_overshoots :
  (collect_posts 1 3 (start board_world [])).1.1 = true
  ∧ collected (collect_posts 1 3 (start board_world [])).1.2 = 4
  ∧ file_ids (raw_file (collect_posts 1 3 (start board_world [])).2)
    = [1; 2; 3; 4]
  ∧ fetched (log (collect_posts 1 3 (start board_world [])).2) = [100; 200]
  ∧ log (collect_posts 1 3 (start board_world [])).2
    = [EvCatalog; EvThread 100; EvPost 100 1; EvPost 100 2; EvPost 100 3;
       EvSleep 1; EvThread 200; EvPost 200 4; EvSleep 1].
Proof. vm_compute. repeat split. Qed.

(** C2, as stated, fails: with post 1 already in the raw file, a run on a
    board that serves post 1 appends a second record for it. *)
Lemma resume_appends_duplicate :
  ¬ resume_is_duplicate_free 1 3 board_world earlier_run.
Proof.
  intros H. apply (H 1).
  - assert (file_ids (appended earlier_run
              (collect_posts 1 3 (start board_world earlier_run)).2)
            = [1; 2; 3; 4]) as -> by (vm_compute; reflexivity).
    apply list_elem_of_here.
  - assert (file_ids earlier_run = [1]) as -> by reflexivity.
    apply list_elem_of_here.
Qed.

(** C2, amended. [collect_posts] starts every run with an empty seen-set
    and never reads the raw file: a run over a file that already holds [old]
    does exactly what the run over an empty file does, with [old] left in
    front. So whatever the run would append to an empty file it appends
    behind [old], also the records whose identifier [old] already holds;
    only the repetitions within the one run are left out. *)
Theorem collect_posts_ignores_raw_file (fuel : nat) (limit : Z) (w : World)
    (old : list line) :
  collect_posts fuel limit (start w old)
  = ((collect_posts fuel limit (start w [])).1,
     prepend old (collect_posts fuel limit (start w [])).2)
  ∧ appended old (collect_posts fuel limit (start w old)).2
    = raw_file (collect_posts fuel limit (start w [])).2
  ∧ NoDup (file_ids (appended old (collect_posts fuel limit (start w old)).2)).
Proof.
  split; [apply collect_posts_prepend|]. split.
  - rewrite collect_posts_prepend. unfold appended. cbn [snd prepend raw_file].
    apply drop_app_length.
  - apply collect_posts_NoDup.
Qed.

Lemma collect_posts_ignores_raw_file_witness :
  file_ids earlier_run = [1]
  ∧ file_ids (appended earlier_run
                (collect_posts 1 3 (start board_world earlier_run)).2)
    = [1; 2; 3; 4].
Proof.
  split; [reflexivity|].
  destruct (collect_posts_ignores_raw_file 1 3 board_world earlier_run)
    as (_ & -> & _).
  vm_compute. reflexivity.
Defined.

(** *** Every served post once, while the target is not reached *)
















End Crawler.

(** ** The classifier calls *)

Section Classifiers.

Lemma backoff_events_S text u a k :
  backoff_events text u a (S k)
  = EvRequest OpenAI text :: EvSleep (inject_Z (2 ^ a) + u 0%nat)%Q
      :: backoff_events text (shift u) (a + 1) k.
Proof.
  unfold backoff_events. cbn [seq map concat].
  unfold backoff_step at 1. cbn [app]. rewrite Z.add_0_r. do 2 f_equal.
  rewrite <- fmap_S_seq, <- list_fmap_compose. f_equal.
  apply list_fmap_ext. intros _ i _. unfold backoff_step, shift. simpl.
  by replace (a + Z.of_nat (S i)) with (a + 1 + Z.of_nat i) by lia.
Qed.

Lemma sleeps_app l k : sleeps (l ++ k) = sleeps l ++ sleeps k.
Proof. apply omap_app. Qed.

(** The pauses of [k] throttled attempts, spelled out. *)
Lemma sleeps_backoff_events text u a k :
  sleeps (backoff_events text u a k)
  = map (λ i, (inject_Z (2 ^ (a + Z.of_nat i)) + u i)%Q) (seq 0 k).
Proof.
  unfold backoff_events. induction (seq 0 k) as [|i ks IH]; [done|].
  cbn [map concat]. rewrite sleeps_app, IH. done.
Qed.

Lemma openai_attempts_S text todo attempt s :
  openai_attempts text (S todo) attempt s
  = let s1 := (requests_post OpenAI text s).2 in
    match openai_feed (world s) 0%nat with
    | NetFail => (Raise ConnectionError, s1)
    | Resp status_code json =>
        if status_code =? 200 then
          match json with
          | Some v => (Ret (Some v), s1)
          | None => (Raise DecodeError, s1)
          end
        else if status_code =? 429 then
          if 2 ^ attempt >? sleep_max
          then (Raise OverflowError, (random_uniform s1).2)
          else
            openai_attempts text todo (attempt + 1)
              (time_sleep (inject_Z (2 ^ attempt) + (random_uniform s1).1)%Q
                 (random_uniform s1).2)
        else (Ret None, s1)
    end.
Proof.
  cbn [openai_attempts]. unfold requests_post.
  by destruct (openai_feed (world s) 0%nat).
Qed.

Lemma short_pause attempt :
  0 ≤ attempt < 34 → (2 ^ attempt >? sleep_max) = false.
Proof.
  intros Ha. rewrite Z.gtb_ltb. apply Z.ltb_ge.
  etrans; [apply (Z.pow_le_mono_r 2 attempt 33); lia|].
  by vm_compute.
Qed.

(** As long as the service answers 429 and the pauses stay short enough
    for [time.sleep], the loop goes on: after [k] such answers it stands at
    attempt [k] with [k] iterations fewer to go. *)
Lemma openai_attempts_throttled text k todo attempt s :
  0 ≤ attempt → attempt + Z.of_nat k ≤ 34 →
  (∀ i, (i < k)%nat → ∃ b, openai_feed (world s) i = Resp 429 b) →
  ∃ s',
    openai_attempts text (k + todo) attempt s
    = openai_attempts text todo (attempt + Z.of_nat k) s'
    ∧ log s' = log s ++ backoff_events text (uniform_feed (world s)) attempt k
    ∧ (∀ i, openai_feed (world s') i = openai_feed (world s) (k + i)%nat)
    ∧ raw_file s' = raw_file s
    ∧ result_file s' = result_file s.
Proof.
  revert attempt s. induction k as [|k IH]; intros attempt s Ha0 Ha H429.
  - exists s. rewrite Z.add_0_r, app_nil_r. done.
  - destruct (H429 0%nat) as [b Hb]; [lia|].
    cbn [Nat.add]. rewrite openai_attempts_S, Hb.
    cbn [Z.eqb Pos.eqb]. cbv zeta. rewrite short_pause by lia.
    match goal with
    | |- context [openai_attempts text (k + todo) (attempt + 1) ?s0] =>
        destruct (IH (attempt + 1) s0)
          as (s' & Hrun & Hlog & Hfeed & Hraw & Hres); [lia|lia| |]
    end.
    { intros i Hi. apply (H429 (S i)). lia. }
    exists s'. split.
    { rewrite Hrun. f_equal. lia. }
    split; [|done].
    rewrite Hlog, backoff_events_S. simpl. by rewrite <- !(assoc_L (++)).
Qed.

(** What [analyze_openai] can touch: it sends at most [todo] requests, all
    of them with the given text to the first service, and leaves the files,
    the clock and the script of the second service alone. *)
Lemma openai_attempts_frame text todo attempt s :
  raw_file (openai_attempts text todo attempt s).2 = raw_file s
  ∧ result_file (openai_attempts text todo attempt s).2 = result_file s
  ∧ clock_feed (world (openai_attempts text todo attempt s).2)
    = clock_feed (world s)
  ∧ perspective_feed (world (openai_attempts text todo attempt s).2)
    = perspective_feed (world s)
  ∧ ∃ n, (n ≤ todo)%nat
      ∧ requests (log (openai_attempts text todo attempt s).2)
        = requests (log s) ++ replicate n (OpenAI, text).
Proof.
  revert attempt s. induction todo as [|todo IH]; intros attempt s.
  - repeat split; try done. exists 0%nat. by rewrite app_nil_r.
  - assert (requests (log (requests_post OpenAI text s).2)
            = requests (log s) ++ replicate 1 (OpenAI, text)) as Hone.
    { unfold requests. simpl. by rewrite omap_app. }
    rewrite openai_attempts_S. cbv zeta.
    destruct (openai_feed (world s) 0%nat) as [|code json].
    { repeat split; try done. exists 1%nat. split; [lia|done]. }
    destruct (code =? 200).
    { destruct json; (repeat split; try done);
        exists 1%nat; (split; [lia|done]). }
    destruct (code =? 429).
    2: { repeat split; try done. exists 1%nat. split; [lia|done]. }
    destruct (2 ^ attempt >? sleep_max).
    { repeat split; try done. exists 1%nat. split; [lia|done]. }
    match goal with
    | |- context [openai_attempts text todo (attempt + 1) ?s0] =>
        destruct (IH (attempt + 1) s0) as (Hraw & Hres & Hclk & Hper & n & Hn & Hreq)
    end.
    repeat split; try done. exists (S n). split; [lia|].
    rewrite Hreq. unfold requests. simpl. rewrite !omap_app. simpl.
    by rewrite app_nil_r, <- (assoc_L (++)).
Qed.

(** C6. [analyze_openai] with the default of five attempts. Whatever the
    service answers, at most five requests are sent. When the first [k]
    answers are 429: each of them is followed by a pause of
    [2 ^ attempt] seconds plus one draw of [random.uniform(0, 1)], the
    attempt counter starting at 0 in every call; with [k = 5] the call
    gives up and returns [None] without raising; with [k < 5] and a verdict
    as the next answer the call returns that verdict after [k] retries. *)
Theorem analyze_openai_backoff (text : string) (s : Sys) (k : nat) :
  (k ≤ 5)%nat →
  (∀ i, (i < k)%nat → ∃ b, openai_feed (world s) i = Resp 429 b) →
  (∃ n, (n ≤ 5)%nat
     ∧ requests (log (analyze_openai text 5 s).2)
       = requests (log s) ++ replicate n (OpenAI, text))
  ∧ (k = 5%nat →
     ∃ s', analyze_openai text 5 s = (Ret None, s')
       ∧ log s' = log s ++ backoff_events text (uniform_feed (world s)) 0 5
       ∧ sleeps (log s')
         = sleeps (log s)
           ++ map (λ i, (inject_Z (2 ^ Z.of_nat i)
                         + uniform_feed (world s) i)%Q) (seq 0 5))
  ∧ (∀ v, (k < 5)%nat → openai_feed (world s) k = Resp 200 (Some v) →
     ∃ s', analyze_openai text 5 s = (Ret (Some v), s')
       ∧ log s' = log s ++ backoff_events text (uniform_feed (world s)) 0 k
                    ++ [EvRequest OpenAI text]
       ∧ sleeps (log s')
         = sleeps (log s)
           ++ map (λ i, (inject_Z (2 ^ Z.of_nat i)
                         + uniform_feed (world s) i)%Q) (seq 0 k)).
Proof.
  intros Hk H429. split; [|split].
  - destruct (openai_attempts_frame text 5 0 s) as (_ & _ & _ & _ & n & Hn & Hreq).
    exists n. done.
  - intros ->.
    destruct (openai_attempts_throttled text 5 0 0 s) as (s' & Hrun & Hlog & _);
      [lia|lia|done|].
    exists s'. split; [|split; [done|]].
    + unfold analyze_openai.
      change (Z.to_nat 5) with (5 + 0)%nat. by rewrite Hrun.
    + rewrite Hlog, sleeps_app, sleeps_backoff_events. done.
  - intros v Hlt Hv.
    destruct (openai_attempts_throttled text k (S (4 - k)) 0 s)
      as (s' & Hrun & Hlog & Hfeed & _); [lia|lia|done|].
    exists (requests_post OpenAI text s').2. split.
    + unfold analyze_openai.
      replace (Z.to_nat 5) with (k + S (4 - k))%nat by lia.
      rewrite Hrun, openai_attempts_S, Hfeed, Nat.add_0_r, Hv. done.
    + split; [simpl; by rewrite Hlog, <- (assoc_L (++))|].
      cbn [requests_post snd log note set_world].
      rewrite sleeps_app, Hlog, sleeps_app, sleeps_backoff_events.
      cbn [sleeps omap]. simpl. by rewrite app_nil_r.
Qed.

Lemma analyze_openai_backoff_witness :
  ∃ s', analyze_openai "hi" 5 (start (throttled_world 3) [])
        = (Ret (Some "flagged"), s')
    ∧ log s' = backoff_events "hi" (uniform_feed (throttled_world 3)) 0 3
                 ++ [EvRequest OpenAI "hi"].
Proof.
  assert (3 ≤ 5)%nat as Hk by lia.
  assert (∀ i, (i < 3)%nat →
            ∃ b, openai_feed (world (start (throttled_world 3) [])) i
                 = Resp 429 b) as H429.
  { intros [|[|[|i]]] Hi; [by eexists..|lia]. }
  destruct (analyze_openai_backoff "hi" (start (throttled_world 3) []) 3 Hk H429)
    as (_ & _ & Hok).
  destruct (Hok "flagged") as (s' & Hrun & Hlog & _); [lia|reflexivity|].
  exists s'. split; [exact Hrun|exact Hlog].
Defined.

Lemma analyze_perspective_spec text s :
  analyze_perspective text s
  = (perspective_verdict (perspective_feed (world s) 0%nat),
     (requests_post Perspective text s).2).
Proof.
  unfold analyze_perspective, requests_post, perspective_verdict.
  destruct (perspective_feed (world s) 0%nat) as [|code json]; [done|].
  by destruct (code =? 200).
Qed.

Lemma analyze_post_ret post text s oa s1 :
  analyze_openai text 5 s = (Ret oa, s1) →
  analyze_post (post, text) s
  = (Ret tt,
     time_sleep 1
       (write_result
          (result_record post text oa
             (perspective_verdict (perspective_feed (world s1) 0%nat))
             (clock_feed (world s1) 0%nat))
          (utcnow (requests_post Perspective text s1).2).2)).
Proof.
  intros HA. unfold analyze_post. rewrite HA, analyze_perspective_spec. done.
Qed.

Lemma analyze_post_raise post text s e s1 :
  analyze_openai text 5 s = (Raise e, s1) →
  analyze_post (post, text) s = (Raise e, s1).
Proof. intros HA. unfold analyze_post. by rewrite HA. Qed.

(** C4. With the first service unreachable, the exception of the HTTP
    request leaves [analyze_openai] and ends the run of
    [analyze_posts_batched] before any result is written and before the
    second service is asked; the same failure inside
    [analyze_perspective] is caught and gives [None]. *)
Theorem analyze_openai_network_error_escapes :
  (analyze_openai "hello" 5 (start board_world [])).1 = Raise ConnectionError
  ∧ (analyze_perspective "hello" (start board_world [])).1 = None
  ∧ (analyze_posts_batched 1000 5 (start board_world earlier_run)).1
    = Raise ConnectionError
  ∧ result_file (analyze_posts_batched 1000 5 (start board_world earlier_run)).2
    = []
  ∧ requests (log (analyze_posts_batched 1000 5
                     (start board_world earlier_run)).2)
    = [(OpenAI, "hello" +:+ newline +:+ "world")].
Proof. vm_compute. repeat split. Qed.

(** C7. With the first service unreachable and the second one ready to
    answer, the body of the loop over the posts of a batch stops at the
    first call: the exception of [analyze_openai] leaves [analyze_post], the
    second classifier is never asked and no result record is written for the
    post; the run of [analyze_posts_batched] over a raw file with that one
    post ends the same way. The two calls are not attempted independently
    when the first one fails by raising. *)
Theorem analyze_post_first_failure_stops :
  perspective_verdict (perspective_feed first_down_world 0%nat) = Some "toxic"
  ∧ (analyze_post (post_record 100 (mk_post 1) "t0", "hello")
       (start first_down_world [])).1 = Raise ConnectionError
  ∧ requests (log (analyze_post (post_record 100 (mk_post 1) "t0", "hello")
                     (start first_down_world [])).2)
    = [(OpenAI, "hello")]
  ∧ result_file (analyze_post (post_record 100 (mk_post 1) "t0", "hello")
                   (start first_down_world [])).2
    = []
  ∧ (analyze_posts_batched 1000 5 (start first_down_world earlier_run)).1
    = Raise ConnectionError
  ∧ requests (log (analyze_posts_batched 1000 5
                     (start first_down_world earlier_run)).2)
    = [(OpenAI, "hello" +:+ newline +:+ "world")]
  ∧ result_file (analyze_posts_batched 1000 5
                   (start first_down_world earlier_run)).2
    = [].
Proof. vm_compute. repeat split. Qed.

(** The part of the loop body that does treat the two calls on their own:
    when the call of the first classifier returns, with a verdict or with
    [None], the second classifier is asked next with the same text, its
    verdict depends on the answer of its own service only, and one result
    record is written that holds the two outcomes side by side. *)
Lemma analyze_post_independent (post : PostRecord) (text : string)
    (s s1 : Sys) (oa : option verdict) :
  analyze_openai text 5 s = (Ret oa, s1) →
  ∃ s',
    analyze_post (post, text) s = (Ret tt, s')
    ∧ requests (log s') = requests (log s1) ++ [(Perspective, text)]
    ∧ result_file s'
      = result_file s
        ++ [result_record post text oa
              (perspective_verdict (perspective_feed (world s) 0%nat))
              (clock_feed (world s) 0%nat)].
Proof.
  intros HA. eexists. split; [by apply analyze_post_ret|].
  destruct (openai_attempts_frame text 5 0 s) as (_ & Hres & Hclk & Hper & _).
  unfold analyze_openai in HA. change (Z.to_nat 5) with 5%nat in HA.
  rewrite HA in Hres, Hclk, Hper. cbn [snd] in *.
  split.
  - unfold requests. simpl. rewrite !omap_app. simpl. by rewrite app_nil_r.
  - simpl. by rewrite Hres, Hclk, Hper.
Qed.

Lemma analyze_post_independent_witness :
  ∃ s',
    analyze_post (post_record 100 (mk_post 1) "t0", "hello")
      (start (throttled_world 5) []) = (Ret tt, s')
    ∧ result_file s'
      = [result_record (post_record 100 (mk_post 1) "t0") "hello"
           None (Some "toxic") "2024-01-01T00:00:00"].
Proof.
  assert (analyze_openai "hello" 5 (start (throttled_world 5) [])
          = (Ret None,
             (analyze_openai "hello" 5 (start (throttled_world 5) [])).2))
    as HA by (vm_compute; reflexivity).
  destruct (analyze_post_independent (post_record 100 (mk_post 1) "t0")
              "hello" _ _ _ HA) as (s' & Hrun & _ & Hres).
  exists s'. split; [exact Hrun|exact Hres].
Defined.

End Classifiers.

(** ** The batched analysis *)

Section Pipeline.

Lemma retained_cons l rest :
  retained (l :: rest)
  = match keep l with
    | Some p => p :: retained rest
    | None => retained rest
    end.
Proof. reflexivity. Qed.

Lemma read_posts_from limit i lines acc :
  read_posts limit i lines acc
  = if existsb is_garbage (take (Z.to_nat (limit - i)) lines)
    then Raise DecodeError
    else Ret (acc ++ retained (take (Z.to_nat (limit - i)) lines)).
Proof.
  revert i acc. induction lines as [|l rest IH]; intros i acc.
  - rewrite take_nil. simpl. by rewrite app_nil_r.
  - cbn [read_posts]. destruct (Z.geb_spec i limit) as [Hge|Hlt].
    + replace (Z.to_nat (limit - i)) with 0%nat by lia.
      simpl. by rewrite app_nil_r.
    + replace (Z.to_nat (limit - i)) with (S (Z.to_nat (limit - (i + 1))))
        by lia.
      cbn [take existsb]. destruct l as [text|post]; [done|].
      cbn [is_garbage orb]. rewrite !IH.
      destruct (existsb _ _); [by destruct (Py.is_empty _)|].
      rewrite retained_cons. cbn [keep].
      destruct (Py.is_empty _); [done|].
      by rewrite <- (assoc_L (++)).
Qed.

Lemma read_posts_spec limit lines :
  read_posts limit 0 lines []
  = if existsb is_garbage (first_lines limit lines)
    then Raise DecodeError
    else Ret (retained (first_lines limit lines)).
Proof. rewrite read_posts_from, Z.sub_0_r. done. Qed.

(** C3, as stated, fails: a first line that does not parse ends the
    reading with the exception of [json.loads]. *)
Lemma read_posts_garbage_raises : ¬ read_skips_garbage 1000 torn_file.
Proof. unfold read_skips_garbage. vm_compute. discriminate. Qed.

(** C3, amended. The reading loop parses the first [limit] lines and has
    no handler: if one of them is malformed the exception of [json.loads]
    ends [analyze_posts_batched] at once, with no classifier asked and
    nothing written; if none is, the loop returns the posts with a
    non-empty stripped text in file order. Lines from index [limit] on are
    never parsed. *)
Theorem read_posts_garbage (limit batch_size : Z) (s : Sys) :
  read_posts limit 0 (raw_file s) []
  = (if existsb is_garbage (first_lines limit (raw_file s))
     then Raise DecodeError
     else Ret (retained (first_lines limit (raw_file s))))
  ∧ (existsb is_garbage (first_lines limit (raw_file s)) = true →
     analyze_posts_batched limit batch_size s = (Raise DecodeError, s)).
Proof.
  split; [apply read_posts_spec|].
  intros Hg. unfold analyze_posts_batched. by rewrite read_posts_spec, Hg.
Qed.

Lemma read_posts_garbage_witness :
  analyze_posts_batched 1000 5 (start board_world torn_file)
  = (Raise DecodeError, start board_world torn_file).
Proof.
  apply (read_posts_garbage 1000 5 (start board_world torn_file)).
  reflexivity.
Defined.

Lemma done_upto_refl ps s : done_upto ps 0 s s.
Proof.
  split; [done|]. split.
  - exists []. by rewrite app_nil_r.
  - exists []. by rewrite app_nil_r.
Qed.

Lemma done_upto_sleep ps n s s' secs :
  done_upto ps n s s' → done_upto ps n s (time_sleep secs s').
Proof.
  intros (Hraw & Hres & qs & Hlog & Hqs). split; [done|]. split; [done|].
  exists qs. split; [|done]. unfold requests in *. simpl.
  rewrite omap_app. simpl. by rewrite app_nil_r.
Qed.

Lemma done_upto_weaken ps1 ps2 n s s' :
  (n ≤ length ps1)%nat →
  done_upto ps1 n s s' → done_upto (ps1 ++ ps2) n s s'.
Proof.
  intros Hn (Hraw & (rs & Hres & Hkeys) & qs & Hlog & Hqs).
  split; [done|]. split.
  - exists rs. by rewrite take_app_le.
  - exists qs. split; [done|]. eapply Forall_impl; [exact Hqs|].
    intros q Hq. simpl in *. rewrite map_app, elem_of_app. by left.
Qed.

Lemma done_upto_app ps1 ps2 n s s1 s2 :
  done_upto ps1 (length ps1) s s1 →
  done_upto ps2 n s1 s2 →
  done_upto (ps1 ++ ps2) (length ps1 + n) s s2.
Proof.
  intros (Hraw1 & (rs1 & Hres1 & Hkeys1) & qs1 & Hlog1 & Hqs1)
         (Hraw2 & (rs2 & Hres2 & Hkeys2) & qs2 & Hlog2 & Hqs2).
  split; [congruence|]. split.
  - exists (rs1 ++ rs2). rewrite Hres2, Hres1, <- (assoc_L (++)).
    split; [done|].
    rewrite take_app_add, !map_app, Hkeys1, Hkeys2, firstn_all. done.
  - exists (qs1 ++ qs2). rewrite Hlog2, Hlog1, <- (assoc_L (++)).
    split; [done|]. apply Forall_app. split.
    + eapply Forall_impl; [exact Hqs1|].
      intros q Hq. simpl in *. rewrite map_app, elem_of_app. by left.
    + eapply Forall_impl; [exact Hqs2|].
      intros q Hq. simpl in *. rewrite map_app, elem_of_app. by right.
Qed.

(** One post: either both classifiers were asked and its record written,
    or the first classifier raised and nothing was written. *)
Lemma analyze_post_done p s :
  match (analyze_post p s).1 with
  | Ret _ => done_upto [p] 1 s (analyze_post p s).2
  | Raise _ => done_upto [p] 0 s (analyze_post p s).2
  end.
Proof.
  destruct p as [post text].
  destruct (openai_attempts_frame text 5 0 s)
    as (Hraw & Hres & _ & _ & k & _ & Hreq).
  assert (Forall (λ q : endpoint * string, q.2 ∈ map snd [(post, text)])
            (replicate k (OpenAI, text))) as Hall.
  { apply Forall_replicate. simpl. apply list_elem_of_here. }
  destruct (analyze_openai text 5 s) as [[oa|e] s1] eqn:HA;
    unfold analyze_openai in HA; change (Z.to_nat 5) with 5%nat in HA;
    rewrite HA in Hraw, Hres, Hreq; cbn [snd] in *.
  - rewrite (analyze_post_ret post text s oa s1) by done. cbn [fst snd].
    split; [done|]. split.
    + eexists [_]. simpl. by rewrite Hres.
    + exists (replicate k (OpenAI, text) ++ [(Perspective, text)]).
      split.
      * unfold requests in *. simpl. rewrite !omap_app. simpl.
        by rewrite app_nil_r, Hreq, <- (assoc_L (++)).
      * apply Forall_app. split; [done|].
        apply Forall_singleton. simpl. apply list_elem_of_here.
  - rewrite (analyze_post_raise post text s e s1) by done. cbn [fst snd].
    split; [done|]. split.
    + exists []. by rewrite app_nil_r.
    + by exists (replicate k (OpenAI, text)).
Qed.

Lemma batch_loop_done ps s :
  ∃ n, (n ≤ length ps)%nat
    ∧ done_upto ps n s (batch_loop ps s).2
    ∧ ((batch_loop ps s).1 = Ret tt → n = length ps).
Proof.
  revert s. induction ps as [|p rest IH]; intros s.
  - exists 0%nat. split; [done|]. split; [apply done_upto_refl|done].
  - cbn [batch_loop]. pose proof (analyze_post_done p s) as Hp.
    destruct (analyze_post p s) as [[[]|e] s1]; cbn [fst snd] in *.
    + destruct (IH s1) as (n & Hn & Hdone & Hret).
      exists (S n). split; [simpl; lia|]. split.
      * apply (done_upto_app [p] rest n s s1); done.
      * intros Hr. simpl. f_equal. by apply Hret.
    + exists 0%nat. split; [lia|]. split; [|done].
      apply (done_upto_weaken [p] rest); [simpl; lia|done].
Qed.

Lemma batches_loop_done starts ps batch_size s :
  ∃ n, (n ≤ length (concat (batches ps batch_size starts)))%nat
    ∧ done_upto (concat (batches ps batch_size starts)) n s
        (batches_loop starts ps batch_size s).2
    ∧ ((batches_loop starts ps batch_size s).1 = Ret tt →
       n = length (concat (batches ps batch_size starts))).
Proof.
  revert s. induction starts as [|start rest IH]; intros s.
  - exists 0%nat. split; [done|]. split; [apply done_upto_refl|done].
  - cbn [batches_loop batches map concat]. fold (batches ps batch_size rest).
    destruct (batch_loop_done (slice ps start (start + batch_size)) s)
      as (n & Hn & Hdone & Hret).
    destruct (batch_loop (slice ps start (start + batch_size)) s)
      as [[[]|e] s1]; cbn [fst snd] in *.
    + rewrite Hret in Hdone by done.
      destruct (IH (time_sleep 5 s1)) as (m & Hm & Hdone' & Hret').
      exists (length (slice ps start (start + batch_size)) + m)%nat.
      split; [rewrite length_app; lia|]. split.
      * eapply done_upto_app; [by apply done_upto_sleep|done].
      * intros Hr. rewrite length_app. f_equal. by apply Hret'.
    + exists n. split; [rewrite length_app; lia|]. split; [|done].
      by apply done_upto_weaken.
Qed.

(** *** Batches *)

Lemma py_range_pos stop step :
  0 < step →
  py_range stop step
  = Ret (map (λ k, Z.of_nat k * step)
             (seq 0 (Z.to_nat ((stop + step - 1) / step)))).
Proof.
  intros Hs. unfold py_range.
  destruct (Z.eqb_spec step 0); [lia|].
  destruct (Z.ltb_spec step 0); [lia|done].
Qed.

Lemma slice_chunk {A} (ps : list A) (k b : nat) :
  slice ps (Z.of_nat k * Z.of_nat b) (Z.of_nat k * Z.of_nat b + Z.of_nat b)
  = take b (drop (k * b) ps).
Proof. unfold slice. f_equal; [lia|]. f_equal. lia. Qed.

Lemma chunks_concat {A} (ps : list A) (b m : nat) :
  concat (map (λ k, take b (drop (k * b) ps)) (seq 0 m)) = take (m * b) ps.
Proof.
  induction m as [|m IH]; [done|].
  rewrite seq_S, map_app, concat_app, IH. simpl.
  rewrite app_nil_r, take_take_drop. f_equal. lia.
Qed.

(** The number of batches is the number of posts divided by the batch
    size, rounded up. *)
Lemma batch_count_bounds (n b : nat) :
  (0 < b)%nat →
  let m := Z.to_nat ((Z.of_nat n + Z.of_nat b - 1) / Z.of_nat b) in
  (n ≤ m * b)%nat ∧ ((0 < m)%nat → ((m - 1) * b < n)%nat).
Proof.
  intros Hb m.
  pose proof (Z.div_mod (Z.of_nat n + Z.of_nat b - 1) (Z.of_nat b)) as Hdm.
  pose proof (Z.mod_pos_bound (Z.of_nat n + Z.of_nat b - 1) (Z.of_nat b)) as Hr.
  assert (0 ≤ (Z.of_nat n + Z.of_nat b - 1) / Z.of_nat b) as Hq
    by (apply Z.div_pos; lia).
  assert (Z.of_nat m = (Z.of_nat n + Z.of_nat b - 1) / Z.of_nat b) as Hm
    by (subst m; lia).
  rewrite <- Hm in Hdm. split; [nia|]. intros Hpos. nia.
Qed.

Lemma batches_chunks ps (b : nat) (ks : list nat) :
  batches ps (Z.of_nat b) (map (λ k, Z.of_nat k * Z.of_nat b) ks)
  = map (λ k, take b (drop (k * b) ps)) ks.
Proof.
  unfold batches. rewrite map_map. apply map_ext. intros k.
  apply slice_chunk.
Qed.

Lemma batches_spec ps batch_size :
  0 < batch_size →
  ∃ starts,
    py_range (Z.of_nat (length ps)) batch_size = Ret starts
    ∧ concat (batches ps batch_size starts) = ps
    ∧ ∀ i batch,
        batches ps batch_size starts !! i = Some batch →
        (0 < length batch ≤ Z.to_nat batch_size)%nat
        ∧ ((S i < length starts)%nat → length batch = Z.to_nat batch_size).
Proof.
  intros Hbs.
  assert (∃ b, batch_size = Z.of_nat b ∧ (0 < b)%nat) as (b & -> & Hb)
    by (exists (Z.to_nat batch_size); lia).
  eexists. split; [by apply py_range_pos|].
  destruct (batch_count_bounds (length ps) b Hb) as [Hhi Hlo].
  set (m := Z.to_nat ((Z.of_nat (length ps) + Z.of_nat b - 1) / Z.of_nat b))
    in *.
  rewrite batches_chunks. split.
  - rewrite chunks_concat. by apply take_ge.
  - intros i batch Hi. rewrite length_map, length_seq.
    rewrite list_lookup_fmap in Hi.
    destruct (seq 0 m !! i) as [k|] eqn:Hk; [|done].
    apply lookup_seq in Hk as [-> Hlt]. simpl in Hi.
    injection Hi as <-. rewrite length_take, length_drop, Nat2Z.id.
    assert ((i * b ≤ (m - 1) * b)%nat) by (apply Nat.mul_le_mono_r; lia).
    split; [lia|]. intros Hlast.
    assert (((i + 1) * b ≤ (m - 1) * b)%nat) by (apply Nat.mul_le_mono_r; lia).
    lia.
Qed.

(** *** The whole run *)

Lemma retained_nonempty lines :
  Forall (λ p : PostRecord * string, p.2 ≠ EmptyString) (retained lines).
Proof.
  induction lines as [|l rest IH]; [constructor|].
  rewrite retained_cons. destruct l as [text|post]; [done|].
  cbn [keep]. destruct (Py.strip _) eqn:E; [done|].
  cbn [Py.is_empty]. by constructor.
Qed.

Lemma retained_sublist lines :
  map (λ p : PostRecord * string, Doc p.1) (retained lines) `sublist_of` lines.
Proof.
  induction lines as [|l rest IH]; [done|].
  rewrite retained_cons. destruct l as [text|post].
  - by apply sublist_cons.
  - cbn [keep]. destruct (Py.is_empty _).
    + by apply sublist_cons.
    + by apply sublist_skip.
Qed.

Lemma first_lines_length limit lines :
  (length (first_lines limit lines) ≤ Z.to_nat limit)%nat.
Proof. unfold first_lines. rewrite length_take. lia. Qed.

Lemma count_partition lines :
  (length (retained lines) + count is_blank lines + count is_garbage lines
   = length lines)%nat.
Proof.
  unfold count.
  induction lines as [|l rest IH]; [done|].
  rewrite retained_cons.
  destruct l as [text|post]; cbn [keep List.filter is_blank is_garbage].
  - simpl. lia.
  - destruct (Py.is_empty _); simpl; lia.
Qed.

Lemma analyze_posts_batched_done limit batch_size s :
  0 < batch_size →
  ∃ n, (n ≤ length (retained (first_lines limit (raw_file s))))%nat
    ∧ done_upto (retained (first_lines limit (raw_file s))) n s
        (analyze_posts_batched limit batch_size s).2
    ∧ ((analyze_posts_batched limit batch_size s).1 = Ret tt →
       n = length (retained (first_lines limit (raw_file s)))).
Proof.
  intros Hbs. unfold analyze_posts_batched. rewrite read_posts_spec.
  destruct (existsb is_garbage _).
  { exists 0%nat. split; [lia|]. split; [apply done_upto_refl|done]. }
  destruct (batches_spec (retained (first_lines limit (raw_file s)))
              batch_size Hbs) as (starts & -> & Hcat & _).
  destruct (batches_loop_done starts
              (retained (first_lines limit (raw_file s))) batch_size s)
    as (n & Hn & Hdone & Hret).
  rewrite Hcat in *. by exists n.
Qed.

Lemma moved_refl s : moved 0 s s.
Proof. done. Qed.

Lemma moved_sleep n s s' secs :
  moved n s s' → moved n s (time_sleep secs s').
Proof. done. Qed.

Lemma answers_plainly_moved n s s' :
  moved n s s' →
  answers_plainly (openai_feed (world s)) →
  answers_plainly (openai_feed (world s')).
Proof. intros (Hoa & _) Hplain k. rewrite Hoa. apply Hplain. Qed.

Lemma analyze_openai_plain text s :
  answers_plainly (openai_feed (world s)) →
  analyze_openai text 5 s
  = (Ret (openai_verdict (openai_feed (world s) 0%nat)),
     (requests_post OpenAI text s).2).
Proof.
  intros Hplain. destruct (Hplain 0%nat) as [o Ho].
  unfold analyze_openai. change (Z.to_nat 5) with 5%nat.
  rewrite openai_attempts_S. cbv zeta. unfold openai_verdict. rewrite Ho.
  unfold openai_terminal in Ho.
  destruct (openai_feed (world s) 0%nat) as [|code json]; [done|].
  destruct (code =? 200).
  { destruct json; [|done]. by injection Ho as <-. }
  destruct (code =? 429); [done|]. by injection Ho as <-.
Qed.

Lemma analyze_post_plain s0 n p s :
  answers_plainly (openai_feed (world s0)) →
  moved n s0 s →
  ∃ s', analyze_post p s = (Ret tt, s')
    ∧ result_file s' = result_file s ++ [expected_result (world s0) n p]
    ∧ log s' = log s ++ post_events p
    ∧ moved (S n) s0 s'.
Proof.
  intros Hplain Hmoved.
  pose proof (answers_plainly_moved n s0 s Hmoved Hplain) as Hplain'.
  destruct Hmoved as (Hoa & Hpe & Hclk & Hraw).
  destruct p as [post text].
  eexists. split.
  { apply analyze_post_ret. by apply analyze_openai_plain. }
  split.
  { simpl. unfold expected_result. cbn [fst snd].
    by rewrite Hoa, Hpe, Hclk, Nat.add_0_r. }
  split.
  { simpl. by rewrite <- !(assoc_L (++)). }
  split; [|split; [|split]]; simpl; intros; unfold shift;
    rewrite ?Hoa, ?Hpe, ?Hclk; try done; f_equal; lia.
Qed.

Lemma batch_loop_plain s0 n ps s :
  answers_plainly (openai_feed (world s0)) →
  moved n s0 s →
  ∃ s', batch_loop ps s = (Ret tt, s')
    ∧ result_file s'
      = result_file s ++ imap (λ i, expected_result (world s0) (n + i)) ps
    ∧ log s' = log s ++ concat (map post_events ps)
    ∧ moved (n + length ps) s0 s'.
Proof.
  intros Hplain. revert n s. induction ps as [|p rest IH]; intros n s Hmoved.
  - exists s. rewrite !app_nil_r, Nat.add_0_r. done.
  - destruct (analyze_post_plain s0 n p s Hplain Hmoved)
      as (s1 & Hrun1 & Hres1 & Hlog1 & Hmoved1).
    destruct (IH (S n) s1 Hmoved1) as (s' & Hrun & Hres & Hlog & Hmoved').
    exists s'. cbn [batch_loop]. rewrite Hrun1. split; [done|]. split.
    { rewrite Hres, Hres1, <- (assoc_L (++)). cbn [imap app].
      rewrite Nat.add_0_r. do 2 f_equal. apply imap_ext.
      intros i q _. simpl. f_equal. lia. }
    split.
    { rewrite Hlog, Hlog1, <- (assoc_L (++)). done. }
    cbn [length]. by replace (n + S (length rest))%nat
      with (S n + length rest)%nat by lia.
Qed.

Lemma batches_loop_plain s0 starts ps batch_size n s :
  answers_plainly (openai_feed (world s0)) →
  moved n s0 s →
  ∃ s', batches_loop starts ps batch_size s = (Ret tt, s')
    ∧ result_file s'
      = result_file s
        ++ imap (λ i, expected_result (world s0) (n + i))
             (concat (batches ps batch_size starts))
    ∧ log s' = log s ++ concat (map batch_events (batches ps batch_size starts))
    ∧ moved (n + length (concat (batches ps batch_size starts))) s0 s'.
Proof.
  intros Hplain. revert n s.
  induction starts as [|start rest IH]; intros n s Hmoved.
  - exists s. simpl. rewrite !app_nil_r, Nat.add_0_r. done.
  - cbn [batches_loop batches map concat]. fold (batches ps batch_size rest).
    set (batch := slice ps start (start + batch_size)).
    destruct (batch_loop_plain s0 n batch s Hplain Hmoved)
      as (s1 & Hrun1 & Hres1 & Hlog1 & Hmoved1).
    rewrite Hrun1.
    destruct (IH (n + length batch)%nat (time_sleep 5 s1))
      as (s' & Hrun & Hres & Hlog & Hmoved'); [by apply moved_sleep|].
    exists s'. split; [done|]. split.
    { rewrite Hres. simpl. rewrite Hres1, <- (assoc_L (++)), imap_app.
      do 2 f_equal. apply imap_ext. intros i q _. simpl. f_equal. lia. }
    split.
    { rewrite Hlog. simpl. rewrite Hlog1. unfold batch_events.
      by rewrite <- !(assoc_L (++)). }
    rewrite length_app. by rewrite Nat.add_assoc.
Qed.

Lemma analyze_posts_batched_run limit batch_size s :
  0 < batch_size →
  existsb is_garbage (first_lines limit (raw_file s)) = false →
  answers_plainly (openai_feed (world s)) →
  ∃ s' starts,
    analyze_posts_batched limit batch_size s = (Ret tt, s')
    ∧ py_range (Z.of_nat (length (retained (first_lines limit (raw_file s)))))
        batch_size = Ret starts
    ∧ result_file s'
      = result_file s
        ++ imap (expected_result (world s))
             (retained (first_lines limit (raw_file s)))
    ∧ log s'
      = log s
        ++ concat (map batch_events
                     (batches (retained (first_lines limit (raw_file s)))
                        batch_size starts))
    ∧ moved (length (retained (first_lines limit (raw_file s)))) s s'.
Proof.
  intros Hbs Hclean Hplain.
  destruct (batches_spec (retained (first_lines limit (raw_file s)))
              batch_size Hbs) as (starts & Hrange & Hcat & _).
  destruct (batches_loop_plain s starts
              (retained (first_lines limit (raw_file s))) batch_size 0 s
              Hplain (moved_refl s)) as (s' & Hrun & Hres & Hlog & Hmoved).
  rewrite Hcat in *. exists s', starts. split; [|done].
  unfold analyze_posts_batched. rewrite read_posts_spec, Hclean.
  by rewrite Hrange.
Qed.

(** C9. For every raw file, limit and positive batch size: only the first
    [limit] lines are read; the posts kept are those among them whose
    stripped text is not empty, in file order; every request sent to either
    classifier carries the non-empty text of a kept post; the loop over the
    batches runs over consecutive pieces of the kept posts, of [batch_size]
    posts each but for a shorter last one, and when no line read is
    malformed and the first classifier answers every request at the first
    attempt, the run ends normally, writes the record of every kept post in
    file order and leaves in the log, batch after batch, the two requests
    and the pause of each post of the batch followed by the pause of five
    seconds that ends the batch; in every case the result records written
    are, in order, those of the first kept posts (of all of them when the
    run ends normally). *)
Theorem analyze_posts_batched_order (limit batch_size : Z) (s : Sys) :
  0 < batch_size →
  let kept := retained (first_lines limit (raw_file s)) in
  let run := analyze_posts_batched limit batch_size s in
  (length (first_lines limit (raw_file s)) ≤ Z.to_nat limit)%nat
  ∧ read_posts limit 0 (raw_file s) []
    = read_posts limit 0 (first_lines limit (raw_file s)) []
  ∧ map (λ p : PostRecord * string, Doc p.1) kept `sublist_of` raw_file s
  ∧ (∃ qs, requests (log run.2) = requests (log s) ++ qs
       ∧ Forall (λ q, q.2 ≠ EmptyString ∧ q.2 ∈ map snd kept) qs)
  ∧ (∃ starts, py_range (Z.of_nat (length kept)) batch_size = Ret starts
       ∧ concat (batches kept batch_size starts) = kept
       ∧ (∀ i batch,
            batches kept batch_size starts !! i = Some batch →
            (0 < length batch ≤ Z.to_nat batch_size)%nat
            ∧ ((S i < length starts)%nat →
               length batch = Z.to_nat batch_size))
       ∧ (existsb is_garbage (first_lines limit (raw_file s)) = false →
          answers_plainly (openai_feed (world s)) →
          run.1 = Ret tt
          ∧ result_file run.2
            = result_file s ++ imap (expected_result (world s)) kept
          ∧ log run.2
            = log s
              ++ concat (map batch_events (batches kept batch_size starts))))
  ∧ (∃ n rs, (n ≤ length kept)%nat
       ∧ result_file run.2 = result_file s ++ rs
       ∧ map result_key rs = map post_key (take n kept)
       ∧ (run.1 = Ret tt → n = length kept)).
Proof.
  intros Hbs kept run.
  destruct (analyze_posts_batched_done limit batch_size s Hbs)
    as (n & Hn & (_ & (rs & Hres & Hkeys) & qs & Hlog & Hqs) & Hret).
  split; [apply first_lines_length|].
  split.
  { rewrite !read_posts_spec. unfold first_lines. by rewrite take_take, Nat.min_id. }
  split.
  { etrans; [apply retained_sublist|]. apply sublist_take. }
  split.
  { exists qs. split; [done|].
    eapply Forall_impl; [exact Hqs|]. intros q Hq. split; [|done].
    apply list_elem_of_fmap in Hq as (p & -> & Hp).
    pose proof (retained_nonempty (first_lines limit (raw_file s))) as Hne.
    rewrite Forall_forall in Hne. by apply Hne. }
  split; [|by exists n, rs].
  destruct (batches_spec kept batch_size Hbs) as (starts & Hrange & Hcat & Hlen).
  exists starts. split; [done|]. split; [done|]. split; [done|].
  intros Hclean Hplain.
  destruct (batches_loop_plain s starts kept batch_size 0 s Hplain
              (moved_refl s)) as (s' & Hrun & Hres' & Hlog' & _).
  assert (run = (Ret tt, s')) as ->.
  { subst run. unfold analyze_posts_batched.
    rewrite read_posts_spec, Hclean. fold kept. by rewrite Hrange. }
  cbn [fst snd]. rewrite Hcat in Hres'. done.
Qed.

Lemma analyze_posts_batched_order_witness :
  (analyze_posts_batched 10 2 (start plain_world (blanks_first 3))).1 = Ret tt
  ∧ result_file (analyze_posts_batched 10 2
                   (start plain_world (blanks_first 3))).2
    = replicate 3 (result_record good_record ">>7 agreed" (Some "flagged")
                     (Some "toxic") "2024-01-01T00:00:00")
  ∧ sleeps (log (analyze_posts_batched 10 2
                   (start plain_world (blanks_first 3))).2)
    = [1; 1; 5; 1; 5]%Q.
Proof.
  assert (0 < 2) as Hbs by lia.
  destruct (analyze_posts_batched_order 10 2
              (start plain_world (blanks_first 3)) Hbs)
    as (_ & _ & _ & _ & (starts & Hrange & _ & _ & Hplain) & _).
  assert (starts = [0; 2]) as ->.
  { vm_compute in Hrange. by injection Hrange as <-. }
  destruct Hplain as (Hret & Hres & Hlog).
  - vm_compute. reflexivity.
  - intros k. by eexists.
  - split; [exact Hret|]. split.
    + rewrite Hres. vm_compute. reflexivity.
    + rewrite Hlog. vm_compute. reflexivity.
Defined.

Lemma retained_blanks k : retained (replicate k (Doc blank_record)) = [].
Proof. induction k as [|k IH]; [done|]. exact IH. Qed.

Lemma retained_goods k :
  length (retained (replicate k (Doc good_record))) = k.
Proof.
  induction k as [|k IH]; [done|].
  change (retained (replicate (S k) (Doc good_record)))
    with ((good_record, ">>7 agreed") :: retained (replicate k (Doc good_record))).
  simpl. by rewrite IH.
Qed.

Lemma no_garbage_blanks k :
  existsb is_garbage (replicate k (Doc blank_record)) = false.
Proof. induction k as [|k IH]; [done|]. exact IH. Qed.

Lemma blanks_first_head k :
  first_lines (Z.of_nat k) (blanks_first k) = replicate k (Doc blank_record).
Proof.
  unfold first_lines, blanks_first. rewrite Nat2Z.id.
  apply take_app_length'. by rewrite length_replicate.
Qed.

(** C10. [limit] bounds the lines read, not the posts analysed: the
    records written are at most the kept posts of the first [limit] lines,
    and each blank line among those lines takes one away from the [limit];
    so on a file of [k] blank records followed by [k] records with text, a
    run with [limit = k] ends normally and writes nothing. *)
Theorem limit_counts_lines (limit batch_size : Z) (s : Sys) :
  0 < batch_size →
  let head := first_lines limit (raw_file s) in
  let run := analyze_posts_batched limit batch_size s in
  (∃ n, length (result_file run.2) = (length (result_file s) + n)%nat
      ∧ (n ≤ length (retained head))%nat
      ∧ (run.1 = Ret tt → n = length (retained head)))
  ∧ (length (retained head) + count is_blank head + count is_garbage head
     = length head)%nat
  ∧ (length head ≤ Z.to_nat limit)%nat
  ∧ ∀ k : nat,
      length (retained (drop k (blanks_first k))) = k
      ∧ ∀ w, analyze_posts_batched (Z.of_nat k) batch_size
               (start w (blanks_first k))
             = (Ret tt, start w (blanks_first k)).
Proof.
  intros Hbs head run.
  destruct (analyze_posts_batched_done limit batch_size s Hbs)
    as (n & Hn & (_ & (rs & Hres & Hkeys) & _) & Hret).
  split.
  { exists n. split; [|done]. fold run in Hres. rewrite Hres, length_app.
    f_equal. apply (f_equal length) in Hkeys.
    rewrite !length_map, length_take in Hkeys. lia. }
  split; [apply count_partition|].
  split; [apply first_lines_length|].
  intros k. split.
  - unfold blanks_first.
    rewrite drop_app_length' by (by rewrite length_replicate).
    apply retained_goods.
  - intros w. unfold analyze_posts_batched.
    rewrite read_posts_spec. cbn [raw_file start].
    rewrite blanks_first_head, no_garbage_blanks, retained_blanks.
    rewrite py_range_pos by done. cbn [length].
    rewrite Z.add_0_l, Z.div_small by lia. done.
Qed.

Lemma limit_counts_lines_witness :
  length (retained (drop 2 (blanks_first 2))) = 2%nat
  ∧ result_file (analyze_posts_batched 2 5
                   (start (throttled_world 0) (blanks_first 2))).2 = [].
Proof.
  assert (0 < 5) as Hbs by lia.
  destruct (limit_counts_lines 2 5 (start (throttled_world 0) []) Hbs)
    as (_ & _ & _ & Hfam).
  destruct (Hfam 2%nat) as [Hgood Hrun].
  split; [exact Hgood|].
  change 2 with (Z.of_nat 2). by rewrite Hrun.
Defined.

End Pipeline.

(** * Further properties *)

(** ** The normalizer on plain text and on other markup *)

Section NormalizerMore.
Import Py PyFacts.

Lemma prefix_length p s :
  prefix p s = true → (String.length p ≤ String.length s)%nat.
Proof. intros [t ->]%prefix_spec. rewrite app_length. lia. Qed.

Lemma replace_from_absent c o new s :
  mentions c s = false →
  replace_from (String c o) new 0 s = s.
Proof.
  induction s as [|d s IH]; [done|]. cbn [mentions].
  destruct (decide (c = d)) as [->|Hne]; [done|]. intros Hs.
  rewrite replace_from_miss, IH; [done..|].
  cbn [prefix]. by rewrite decide_False.
Qed.

Lemma replace_from_length old new skip s :
  (String.length new ≤ String.length old)%nat →
  (String.length (replace_from old new skip s) ≤ String.length s - skip)%nat.
Proof.
  intros Hlen. revert skip. induction s as [|c s IH]; intros skip; [done|].
  cbn [replace_from]. destruct skip as [|k].
  - destruct (prefix old (String c s)) eqn:Hp.
    + apply prefix_length in Hp. rewrite app_length.
      specialize (IH (String.length old - 1)%nat). simpl in *. lia.
    + specialize (IH 0%nat). simpl in *. lia.
  - specialize (IH k). simpl in *. lia.
Qed.

Lemma replace_length old new s :
  old ≠ EmptyString →
  (String.length new ≤ String.length old)%nat →
  (String.length (replace old new s) ≤ String.length s)%nat.
Proof.
  intros Hne Hlen. destruct old as [|c o]; [done|]. unfold replace.
  pose proof (replace_from_length (String c o) new 0 s Hlen). lia.
Qed.

(** X1. Text that holds neither [<] nor [&] comes back as it is. *)
Theorem clean_comment_plain (s : string) :
  mentions "<" s = false →
  mentions "&" s = false →
  clean_comment (Some s) = s.
Proof.
  intros Hlt Hamp. rewrite clean_comment_passes. unfold replace.
  rewrite (replace_from_absent "<") by done.
  by rewrite !(replace_from_absent "&" _ _ s) by done.
Qed.

Lemma clean_comment_plain_witness :
  clean_comment (Some "so it goes > 3 times") = "so it goes > 3 times".
Proof. apply clean_comment_plain; reflexivity. Defined.

(** X2. The normalizer never makes a comment longer. *)
Theorem clean_comment_length (comment : option string) :
  (String.length (clean_comment comment)
   ≤ String.length (default EmptyString comment))%nat.
Proof.
  destruct comment as [s|]; [|done]. rewrite clean_comment_passes.
  cbn [default].
  etrans; [apply replace_length; [done|simpl; lia]|].
  etrans; [apply replace_length; [done|simpl; lia]|].
  apply replace_length; [done|simpl; lia].
Qed.

(** X3. The entities [&amp;], [&lt;] and [&#039;] are copied, not decoded,
    wherever they stand; the text on either side is normalized on its own. *)
Theorem clean_comment_other_entities (m a b : string) :
  m ∈ other_entities →
  clean_comment (Some (a +:+ m +:+ b))
  = clean_comment (Some a) +:+ m +:+ clean_comment (Some b).
Proof.
  intros Hm. rewrite !clean_comment_passes.
  unfold other_entities in Hm.
  repeat (apply elem_of_cons in Hm as [->|Hm]);
    [| | |by apply elem_of_nil in Hm];
    rewrite (replace_around "<br>") by done;
    rewrite (replace_around "&gt;") by done;
    by rewrite (replace_around "&quot;") by done.
Qed.

Lemma clean_comment_other_entities_witness :
  clean_comment (Some ("Q" +:+ "&amp;" +:+ "A&gt;"))
  = "Q" +:+ "&amp;" +:+ "A>".
Proof.
  apply (clean_comment_other_entities "&amp;" "Q" "A&gt;").
  apply list_elem_of_here.
Defined.

End NormalizerMore.

(** ** Stripping and the choice of the posts to analyse *)

Section Stripping.
Import Py.

Lemma lstrip_all_space s : all_space (lstrip s) ↔ all_space s.
Proof.
  unfold all_space. induction s as [|c s IH]; [done|].
  cbn [lstrip]. destruct (isspace c) eqn:Hc; [|done].
  rewrite IH. cbn [chars]. rewrite Forall_cons. tauto.
Qed.

Lemma rstrip_empty s : rstrip s = EmptyString ↔ all_space s.
Proof.
  unfold all_space. induction s as [|c s IH]; [by split; [constructor|]|].
  cbn [rstrip chars]. rewrite Forall_cons, <- IH.
  destruct (rstrip s) as [|d r]; destruct (isspace c); split; try done;
    intros [? ?]; done.
Qed.

Lemma strip_empty s : strip s = EmptyString ↔ all_space s.
Proof. unfold strip. by rewrite rstrip_empty, lstrip_all_space. Qed.

Lemma lstrip_head s : head_space (lstrip s) = false.
Proof.
  induction s as [|c s IH]; [done|]. cbn [lstrip].
  by destruct (isspace c) eqn:Hc.
Qed.

Lemma rstrip_head s : head_space s = false → head_space (rstrip s) = false.
Proof.
  destruct s as [|c s]; [done|]. cbn [rstrip head_space]. intros Hc.
  destruct (rstrip s); by rewrite ?Hc.
Qed.

Lemma rstrip_last s : last_space (rstrip s) = false.
Proof.
  induction s as [|c s IH]; [done|]. cbn [rstrip].
  destruct (rstrip s) as [|d r] eqn:E.
  - destruct (isspace c) eqn:Hc; [done|]. simpl. by rewrite Hc.
  - exact IH.
Qed.

Lemma lstrip_id s : head_space s = false → lstrip s = s.
Proof. destruct s as [|c s]; [done|]. simpl. by intros ->. Qed.

Lemma rstrip_id s : last_space s = false → rstrip s = s.
Proof.
  induction s as [|c s IH]; [done|]. cbn [last_space rstrip].
  destruct s as [|d s']; [by intros ->|].
  intros Hs. by rewrite (IH Hs).
Qed.

(** What [strip] returns is stripped. *)
Lemma strip_stripped s :
  head_space (strip s) = false ∧ last_space (strip s) = false
  ∧ strip (strip s) = strip s.
Proof.
  assert (head_space (strip s) = false) as Hh
    by apply rstrip_head, lstrip_head.
  assert (last_space (strip s) = false) as Hl by apply rstrip_last.
  split; [done|]. split; [done|].
  unfold strip at 1. by rewrite (lstrip_id _ Hh), (rstrip_id _ Hl).
Qed.

Lemma read_posts_ret limit lines ps :
  read_posts limit 0 lines [] = Ret ps →
  existsb is_garbage (first_lines limit lines) = false
  ∧ ps = retained (first_lines limit lines).
Proof.
  rewrite read_posts_spec.
  destruct (existsb is_garbage _); [done|]. by intros [= ->].
Qed.

Lemma count_no_garbage lines :
  existsb is_garbage lines = false → count is_garbage lines = 0%nat.
Proof.
  unfold count. induction lines as [|l rest IH]; [done|].
  destruct l as [text|post]; [done|]. exact IH.
Qed.

Lemma retained_elem lines post text :
  (post, text) ∈ retained lines
  ↔ Doc post ∈ lines
    ∧ text = strip (default EmptyString (comment post))
    ∧ text ≠ EmptyString.
Proof.
  unfold retained. rewrite list_elem_of_omap. split.
  - intros (l & Hl & Hk). destruct l as [garbage|post']; [done|].
    cbn [keep] in Hk.
    destruct (strip (default EmptyString (comment post'))) as [|c t] eqn:E;
      [done|].
    cbn [is_empty] in Hk. injection Hk as -> <-. by rewrite E.
  - intros (Hl & -> & Hne). exists (Doc post). split; [done|].
    cbn [keep]. by destruct (strip _).
Qed.

(** X4. When the reading loop of [analyze_posts_batched] ends normally, no
    line among the first [limit] is malformed, and a record is among the
    posts handed on to the analysis exactly when its line is one of these
    first [limit] lines and its comment holds something else than white
    space: a record whose comment is missing, empty or white space only is
    left out. The posts handed on follow the order of the file, one for
    each line read that is not left out. *)
Theorem read_posts_skips_blank (limit : Z) (lines : list line)
    (ps : list (PostRecord * string)) :
  read_posts limit 0 lines [] = Ret ps →
  existsb is_garbage (first_lines limit lines) = false
  ∧ (∀ post,
       post ∈ map fst ps
       ↔ Doc post ∈ first_lines limit lines
         ∧ ¬ all_space (default EmptyString (comment post)))
  ∧ map (λ p : PostRecord * string, Doc p.1) ps
    `sublist_of` first_lines limit lines
  ∧ (length ps + count is_blank (first_lines limit lines)
     = length (first_lines limit lines))%nat.
Proof.
  intros Hread. apply read_posts_ret in Hread as [Hclean ->].
  split; [done|]. split; [|split].
  - intros post. rewrite list_elem_of_fmap. split.
    + intros ([post' text] & -> & Hp). cbn [fst].
      apply retained_elem in Hp as (Hl & -> & Hne).
      split; [done|]. by rewrite <- strip_empty.
    + intros [Hl Hne].
      exists (post, strip (default EmptyString (comment post))).
      split; [done|]. apply retained_elem. by rewrite <- strip_empty in Hne.
  - apply retained_sublist.
  - pose proof (count_partition (first_lines limit lines)) as Hcount.
    rewrite (count_no_garbage _ Hclean) in Hcount. lia.
Qed.

Lemma read_posts_skips_blank_witness :
  read_posts 3 0 (blanks_first 2) [] = Ret [(good_record, ">>7 agreed")]
  ∧ (good_record ∈ map fst [(good_record, ">>7 agreed")]
     ↔ Doc good_record ∈ first_lines 3 (blanks_first 2)
       ∧ ¬ all_space (default EmptyString (comment good_record)))
  ∧ (blank_record ∈ map fst [(good_record, ">>7 agreed")]
     ↔ Doc blank_record ∈ first_lines 3 (blanks_first 2)
       ∧ ¬ all_space (default EmptyString (comment blank_record))).
Proof.
  assert (read_posts 3 0 (blanks_first 2) []
          = Ret [(good_record, ">>7 agreed")]) as Hread
    by (vm_compute; reflexivity).
  destruct (read_posts_skips_blank 3 (blanks_first 2) _ Hread)
    as (_ & Hiff & _).
  split; [exact Hread|]. split; apply Hiff.
Defined.

(** X5. The text that the reading loop of [analyze_posts_batched] attaches
    to a post it hands on (the text sent to both classifiers and written to
    the result record) is the stripped comment of a record among the first
    [limit] lines: it is not empty, it neither starts nor ends with white
    space, and stripping it again changes nothing. *)
Theorem read_posts_text_stripped (limit : Z) (lines : list line)
    (ps : list (PostRecord * string)) (p : PostRecord * string) :
  read_posts limit 0 lines [] = Ret ps →
  p ∈ ps →
  Doc p.1 ∈ first_lines limit lines
  ∧ p.2 = strip (default EmptyString (comment p.1))
  ∧ p.2 ≠ EmptyString
  ∧ head_space p.2 = false
  ∧ last_space p.2 = false
  ∧ strip p.2 = p.2.
Proof.
  intros Hread Hp. apply read_posts_ret in Hread as [_ ->].
  destruct p as [post text]. cbn [fst snd].
  apply retained_elem in Hp as (Hl & -> & Hne).
  split; [done|]. split; [done|]. split; [done|]. apply strip_stripped.
Qed.

Lemma read_posts_text_stripped_witness :
  read_posts 3 0 (blanks_first 2) [] = Ret [(good_record, ">>7 agreed")]
  ∧ comment good_record = Some " >>7 agreed "
  ∧ ">>7 agreed" = strip (default EmptyString (comment good_record))
  ∧ strip ">>7 agreed" = ">>7 agreed".
Proof.
  assert (read_posts 3 0 (blanks_first 2) []
          = Ret [(good_record, ">>7 agreed")]) as Hread
    by (vm_compute; reflexivity).
  destruct (read_posts_text_stripped 3 (blanks_first 2) _
              (good_record, ">>7 agreed") Hread)
    as (_ & Htext & _ & _ & _ & Hstrip); [apply list_elem_of_here|].
  split; [exact Hread|]. split; [reflexivity|].
  split; [exact Htext|exact Hstrip].
Defined.

End Stripping.

(** ** More on the crawler *)

Section CrawlerMore.

(** *** The counters and the file *)

Lemma crawl_counts_start (c : Crawl) (s : Sys) :
  collected c = Z.of_nat (size (seen_posts c)) →
  crawl_counts (raw_file s) c s.
Proof.
  intros Hc. exists []. simpl. rewrite app_nil_r. split; [done|].
  split; [done|]. lia.
Qed.

Lemma while_loop_counts old fuel limit c s :
  crawl_counts old c s →
  crawl_counts old (while_loop fuel limit c s).1.2
    (while_loop fuel limit c s).2.
Proof.
  apply (while_loop_rule (crawl_counts old)).
  - done.
  - done.
  - done.
  - intros c' s' tid post now Hin (recs & Hraw & Hcol & Hlen).
    assert (size ({[no post]} ∪ seen_posts c') = S (size (seen_posts c')))
      as Hsize.
    { rewrite size_union by set_solver. by rewrite size_singleton. }
    unfold save_posts. cbv zeta. destruct (write_feed (world s') 0%nat).
    + exists (recs ++ [post_record tid post now]). simpl.
      rewrite Hraw, map_app, length_app, <- (assoc_L (++)), Hsize. simpl.
      split; [done|]. split; lia.
    + exists recs. simpl. rewrite Hsize. split; [done|]. split; lia.
Qed.

Lemma while_loop_counts_exact old fuel limit c s :
  crawl_counts_exact old c s →
  crawl_counts_exact old (while_loop fuel limit c s).1.2
    (while_loop fuel limit c s).2.
Proof.
  apply (while_loop_rule (crawl_counts_exact old)).
  - done.
  - intros c' s' w _ _ _ _ Hw [Hwrite Hrecs]. split; [|done].
    simpl. by rewrite Hw.
  - done.
  - intros c' s' tid post now Hin (Hwrite & recs & Hraw & Hlen).
    assert (size ({[no post]} ∪ seen_posts c') = S (size (seen_posts c')))
      as Hsize.
    { rewrite size_union by set_solver. by rewrite size_singleton. }
    unfold save_posts. cbv zeta. rewrite (Hwrite 0%nat). split.
    + intros k. apply (Hwrite (S k)).
    + exists (recs ++ [post_record tid post now]). simpl.
      rewrite Hraw, map_app, length_app, <- (assoc_L (++)), Hsize. simpl.
      split; [done|]. lia.
Qed.

(** X6. The counter [collected] always equals the size of [seen_posts], at
    every round of the outer loop and for every board, target and earlier
    content of the file; the run appends nothing but records to the raw
    file, and never more of them than it has counted. When every write to
    the raw file goes through, the records appended are as many as the
    counter says; a write that fails leaves the counter ahead of the
    file. *)
Theorem collect_posts_counts (fuel : nat) (limit : Z) (s : Sys) :
  ∃ recs : list PostRecord,
    raw_file (collect_posts fuel limit s).2 = raw_file s ++ map Doc recs
    ∧ collected (collect_posts fuel limit s).1.2
      = Z.of_nat (size (seen_posts (collect_posts fuel limit s).1.2))
    ∧ (length recs ≤ size (seen_posts (collect_posts fuel limit s).1.2))%nat
    ∧ (writes_succeed (write_feed (world s)) →
       length recs = size (seen_posts (collect_posts fuel limit s).1.2)).
Proof.
  unfold collect_posts.
  destruct (while_loop_counts (raw_file s) fuel limit
              {| seen_posts := ∅; collected := 0 |} s)
    as (recs & Hraw & Hcol & Hlen); [by apply crawl_counts_start|].
  exists recs. split; [done|]. split; [done|]. split; [done|].
  intros Hwrite.
  destruct (while_loop_counts_exact (raw_file s) fuel limit
              {| seen_posts := ∅; collected := 0 |} s)
    as (_ & recs' & Hraw' & Hlen').
  { split; [done|]. exists []. simpl. by rewrite app_nil_r. }
  rewrite Hraw in Hraw'. apply app_inv_head in Hraw'.
  apply (f_equal length) in Hraw'. rewrite !length_map in Hraw'. lia.
Qed.

Lemma collect_posts_counts_witness :
  ∃ recs : list PostRecord,
    raw_file (collect_posts 1 3 (start board_world [])).2 = map Doc recs
    ∧ length recs
      = size (seen_posts (collect_posts 1 3 (start board_world [])).1.2).
Proof.
  destruct (collect_posts_counts 1 3 (start board_world []))
    as (recs & Hraw & _ & _ & Hlen).
  exists recs. split; [exact Hraw|]. apply Hlen. intros k. reflexivity.
Defined.

(** X18. On the board of C1 with a raw file that cannot be written, two
    rounds with a target of 3 end the outer loop by its own condition: the
    exception of each write is caught by the handler of the thread, which
    sleeps two seconds and goes on, so that four posts are counted and
    remembered while the raw file has gained no record. *)
Theorem collect_posts_lost_writes :
  (collect_posts 2 3 (start unwritable_world [])).1.1 = true
  ∧ collected (collect_posts 2 3 (start unwritable_world [])).1.2 = 4
  ∧ size (seen_posts (collect_posts 2 3 (start unwritable_world [])).1.2)
    = 4%nat
  ∧ raw_file (collect_posts 2 3 (start unwritable_world [])).2 = []
  ∧ log (collect_posts 2 3 (start unwritable_world [])).2
    = [EvCatalog; EvThread 100; EvPost 100 1; EvSleep 2;
       EvThread 200; EvPost 200 4; EvSleep 2;
       EvCatalog; EvThread 100; EvPost 100 1; EvPost 100 2; EvSleep 2;
       EvThread 200; EvPost 200 4; EvPost 200 5; EvSleep 2].
Proof. vm_compute. repeat split. Qed.

(** *** What the crawler leaves alone *)

Lemma while_loop_frame fuel limit c s :
  result_file (while_loop fuel limit c s).2 = result_file s
  ∧ requests (log (while_loop fuel limit c s).2) = requests (log s)
  ∧ openai_feed (world (while_loop fuel limit c s).2) = openai_feed (world s)
  ∧ perspective_feed (world (while_loop fuel limit c s).2)
    = perspective_feed (world s)
  ∧ log s `prefix_of` log (while_loop fuel limit c s).2.
Proof.
  apply (while_loop_rule
    (λ (_ : Crawl) s',
       result_file s' = result_file s
       ∧ requests (log s') = requests (log s)
       ∧ openai_feed (world s') = openai_feed (world s)
       ∧ perspective_feed (world s') = perspective_feed (world s)
       ∧ log s `prefix_of` log s')).
  - intros c' s' e He (Hres & Hreq & Hoa & Hpe & Hlog). simpl.
    split; [done|]. split.
    { unfold requests in *. rewrite omap_app. simpl. by rewrite He, app_nil_r. }
    split; [done|]. split; [done|]. by apply prefix_app_r.
  - intros c' s' w _ Hoa' Hpe' _ _ (Hres & Hreq & Hoa & Hpe & Hlog). simpl.
    rewrite Hoa', Hpe'. done.
  - intros c' s' (Hres & Hreq & Hoa & Hpe & Hlog). simpl.
    split; [done|]. split.
    { unfold requests in *. rewrite omap_app. simpl. by rewrite app_nil_r. }
    split; [done|]. split; [done|]. by apply prefix_app_r.
  - intros c' s' tid post now _ Hs'. unfold save_posts. cbv zeta.
    by destruct (write_feed (world s') 0%nat).
  - done.
Qed.

(** X7. The crawler keeps to its side: it writes no result record, asks
    neither classifier and leaves their scripts as they are. *)
Theorem collect_posts_frame (fuel : nat) (limit : Z) (s : Sys) :
  result_file (collect_posts fuel limit s).2 = result_file s
  ∧ requests (log (collect_posts fuel limit s).2) = requests (log s)
  ∧ openai_feed (world (collect_posts fuel limit s).2) = openai_feed (world s)
  ∧ perspective_feed (world (collect_posts fuel limit s).2)
    = perspective_feed (world s)
  ∧ log s `prefix_of` log (collect_posts fuel limit s).2.
Proof. apply while_loop_frame. Qed.

(** *** How far the counter can go *)

Lemma post_loop_collected limit tid ps c s :
  collected c ≤ collected (post_loop limit tid ps c s).1.2
  ∧ collected (post_loop limit tid ps c s).1.2
    ≤ Z.max (limit - 1) (collected c) + 1.
Proof.
  revert c s. induction ps as [|post rest IH]; intros c s; [simpl; lia|].
  rewrite post_loop_cons. cbv zeta.
  destruct (decide (no post ∈ seen_posts c)); [apply IH|].
  destruct (save_posts _ _).1.
  - cbn [collected].
    destruct (Z.geb_spec (collected c + 1) limit) as [Hge|Hlt].
    + cbn [fst snd collected]. lia.
    + match goal with
      | |- context [post_loop limit tid rest ?c1 ?s1] =>
          destruct (IH c1 s1) as [Hlo Hhi]
      end.
      cbn [collected] in *. lia.
  - cbn [fst snd collected]. lia.
Qed.

Lemma thread_loop_collected limit ts c s :
  collected c ≤ collected (thread_loop limit ts c s).1
  ∧ collected (thread_loop limit ts c s).1
    ≤ Z.max (limit - 1) (collected c) + Z.of_nat (length ts).
Proof.
  revert c s. induction ts as [|tid rest IH]; intros c s; [simpl; lia|].
  rewrite thread_loop_cons.
  destruct (fetch_thread tid s).1 as [td|].
  - cbv zeta.
    pose proof (post_loop_collected limit tid (posts td) c
                  (fetch_thread tid s).2) as [Hlo Hhi].
    match goal with
    | |- context [thread_loop limit rest ?c1 ?s1] =>
        destruct (IH c1 s1) as [Hlo' Hhi']
    end.
    cbn [length]. lia.
  - destruct (IH c (time_sleep 2 (fetch_thread tid s).2)) as [Hlo' Hhi'].
    cbn [length]. lia.
Qed.

Lemma page_loop_collected (B : nat) limit pages c s :
  (∀ page, page ∈ pages → (length (threads page) ≤ B)%nat) →
  collected c < limit →
  collected (page_loop limit pages c s).1 ≤ limit - 1 + Z.of_nat B.
Proof.
  revert c s. induction pages as [|page rest IH]; intros c s HB Hc;
    [simpl; lia|].
  cbn [page_loop].
  pose proof (thread_loop_collected limit (threads page) c s) as [Hlo Hhi].
  destruct (thread_loop limit (threads page) c s) as [c1 s1]. cbn [fst] in *.
  assert (length (threads page) ≤ B)%nat by (apply HB; left).
  destruct (Z.geb_spec (collected c1) limit) as [Hge|Hlt].
  - cbn [fst]. lia.
  - apply IH; [|done]. intros page' Hp. apply HB. by right.
Qed.

Lemma page_loop_catalog_feed limit pages c s :
  catalog_feed (world (page_loop limit pages c s).2) = catalog_feed (world s).
Proof.
  apply (page_loop_rule
           (λ _ s', catalog_feed (world s') = catalog_feed (world s))).
  - done.
  - intros c' s' w Hw _ _ _ _ Hs'. simpl. by rewrite Hw.
  - intros c' s' tid post now _ Hs'. unfold save_posts. cbv zeta.
    by destruct (write_feed (world s') 0%nat).
  - done.
Qed.

Lemma pages_bounded_shift B feed :
  pages_bounded B feed → pages_bounded B (shift feed).
Proof. intros HB k. apply (HB (S k)). Qed.

Lemma while_loop_collected (B : nat) fuel limit c s :
  pages_bounded B (catalog_feed (world s)) →
  collected (while_loop fuel limit c s).1.2
  ≤ Z.max (collected c) (limit - 1 + Z.of_nat B).
Proof.
  revert c s. induction fuel as [|fuel IH]; intros c s HB.
  - simpl. destruct (collected c <? limit); cbn [fst snd]; lia.
  - cbn [while_loop].
    destruct (Z.ltb_spec (collected c) limit) as [Hlt|Hge];
      [|cbn [fst snd]; lia].
    unfold fetch_catalog.
    destruct (catalog_feed (world s) 0%nat) as [catalog|] eqn:Hcat.
    + match goal with
      | |- context [page_loop limit catalog c ?s0] =>
          pose proof (page_loop_collected B limit catalog c s0) as Hp;
          pose proof (page_loop_catalog_feed limit catalog c s0) as Hfeed;
          destruct (page_loop limit catalog c s0) as [c1 s1]
      end.
      cbn [fst snd] in *.
      assert (collected c1 ≤ limit - 1 + Z.of_nat B) as Hc1.
      { apply Hp; [|done]. intros page Hpage. by apply (HB 0%nat catalog). }
      etrans; [apply IH|lia].
      rewrite Hfeed. simpl. by apply pages_bounded_shift.
    + etrans; [apply IH|lia]. simpl. by apply pages_bounded_shift.
Qed.

Lemma while_loop_finished fuel limit c s :
  (while_loop fuel limit c s).1.1 = true →
  limit ≤ collected (while_loop fuel limit c s).1.2.
Proof.
  revert c s. induction fuel as [|fuel IH]; intros c s.
  - simpl. destruct (Z.ltb_spec (collected c) limit); [done|].
    cbn [fst snd]. lia.
  - cbn [while_loop].
    destruct (Z.ltb_spec (collected c) limit); [|cbn [fst snd]; lia].
    destruct (fetch_catalog s) as [[catalog|] s0].
    + destruct (page_loop limit catalog c s0) as [c1 s1]. apply IH.
    + apply IH.
Qed.

(** X8. With a positive target and at most [B] threads on every catalog page,
    a run counts at most [limit - 1 + B] posts and appends no more records
    than it has counted; when the outer loop ends by its own condition it
    has counted at least [limit] posts, and appended at least [limit]
    records if every write to the raw file went through. *)
Theorem collect_posts_bounds (B fuel : nat) (limit : Z) (s : Sys) :
  0 < limit →
  pages_bounded B (catalog_feed (world s)) →
  Z.of_nat (length (appended (raw_file s) (collect_posts fuel limit s).2))
  ≤ collected (collect_posts fuel limit s).1.2
  ∧ collected (collect_posts fuel limit s).1.2 ≤ limit - 1 + Z.of_nat B
  ∧ ((collect_posts fuel limit s).1.1 = true →
     limit ≤ collected (collect_posts fuel limit s).1.2)
  ∧ ((collect_posts fuel limit s).1.1 = true →
     writes_succeed (write_feed (world s)) →
     limit
     ≤ Z.of_nat (length (appended (raw_file s) (collect_posts fuel limit s).2))).
Proof.
  intros Hlimit HB. unfold collect_posts.
  destruct (while_loop_counts (raw_file s) fuel limit
              {| seen_posts := ∅; collected := 0 |} s)
    as (recs & Hraw & Hcol & Hlen); [by apply crawl_counts_start|].
  pose proof (while_loop_finished fuel limit
                {| seen_posts := ∅; collected := 0 |} s) as Hfin.
  pose proof (while_loop_collected B fuel limit
                {| seen_posts := ∅; collected := 0 |} s HB) as Hhi.
  cbn [collected] in Hhi.
  unfold appended. rewrite Hraw, drop_app_length, length_map.
  split; [lia|]. split; [lia|]. split; [done|].
  intros Hret Hwrite.
  destruct (while_loop_counts_exact (raw_file s) fuel limit
              {| seen_posts := ∅; collected := 0 |} s)
    as (_ & recs' & Hraw' & Hlen').
  { split; [done|]. exists []. simpl. by rewrite app_nil_r. }
  rewrite Hraw in Hraw'. apply app_inv_head in Hraw'.
  apply (f_equal length) in Hraw'. rewrite !length_map in Hraw'.
  specialize (Hfin Hret). lia.
Qed.

Lemma collect_posts_bounds_witness :
  Z.of_nat (length (appended [] (collect_posts 1 3 (start board_world [])).2))
  ≤ 3 - 1 + Z.of_nat 2
  ∧ 3 ≤ Z.of_nat (length (appended []
                            (collect_posts 1 3 (start board_world [])).2)).
Proof.
  assert (0 < 3) as Hlimit by lia.
  assert (pages_bounded 2 (catalog_feed (world (start board_world []))))
    as HB.
  { intros k catalog page Hcat Hpage. simpl in Hcat.
    injection Hcat as <-. apply list_elem_of_singleton in Hpage as ->.
    simpl. lia. }
  destruct (collect_posts_bounds 2 1 3 (start board_world []) Hlimit HB)
    as (Hrecs & Hcount & _ & Hlow).
  split.
  - etrans; [exact Hrecs|exact Hcount].
  - apply Hlow; [vm_compute; reflexivity|]. intros k. reflexivity.
Defined.

Lemma while_loop_dead fuel limit c s :
  collected c < limit →
  (∀ k, catalog_feed (world s) k = None) →
  (while_loop fuel limit c s).1.1 = false
  ∧ raw_file (while_loop fuel limit c s).2 = raw_file s
  ∧ log (while_loop fuel limit c s).2
    = log s ++ concat (replicate fuel [EvCatalog; EvSleep 5]).
Proof.
  intros Hc. revert s. induction fuel as [|fuel IH]; intros s Hdead.
  - simpl. destruct (Z.ltb_spec (collected c) limit); [|lia].
    cbn [fst snd]. by rewrite app_nil_r.
  - cbn [while_loop]. destruct (Z.ltb_spec (collected c) limit); [|lia].
    unfold fetch_catalog. rewrite (Hdead 0%nat).
    match goal with
    | |- context [while_loop fuel limit c ?s0] =>
        destruct (IH s0) as (Hflag & Hraw & Hlog)
    end.
    { intros k. apply (Hdead (S k)). }
    split; [done|]. split; [done|].
    rewrite Hlog. simpl. by rewrite <- !(assoc_L (++)).
Qed.

(** X9. On a board whose catalog request fails every time, the crawler goes
    round for ever: however many rounds it is given, it has not finished,
    has written nothing, and has done nothing but ask for the catalog and
    sleep 5 seconds after each failure. *)
Theorem collect_posts_dead_board (fuel : nat) (limit : Z) (s : Sys) :
  0 < limit →
  (∀ k, catalog_feed (world s) k = None) →
  (collect_posts fuel limit s).1.1 = false
  ∧ raw_file (collect_posts fuel limit s).2 = raw_file s
  ∧ log (collect_posts fuel limit s).2
    = log s ++ concat (replicate fuel [EvCatalog; EvSleep 5]).
Proof. intros Hlimit Hdead. by apply while_loop_dead. Qed.

Lemma collect_posts_dead_board_witness :
  (collect_posts 7 3 (start (throttled_world 0) [])).1.1 = false.
Proof.
  apply (collect_posts_dead_board 7 3 (start (throttled_world 0) []));
    [lia|reflexivity].
Defined.

End CrawlerMore.

(** ** More on the first classifier *)

Section ClassifierMore.

(** X10. [analyze_openai] for any [max_retries]. After [k] answers 429, each
    followed by its pause, [k] being at most 34: if the attempts are used up
    the call returns [None] (at once and without a request when
    [max_retries] is zero or negative); otherwise the next answer decides: a
    verdict is returned, any status other than 200 and 429 gives [None] with
    no pause and no further attempt, and a failing request or an
    undecodable body raises. The 35th answer 429 in a row, if that many
    attempts are allowed, ends the call with [OverflowError]: the pause of
    [2 ^ 34] seconds and more is refused by [time.sleep]. *)
Theorem analyze_openai_any_retries (text : string) (max_retries : Z)
    (s : Sys) (k : nat) :
  (∀ i, (i < k)%nat → ∃ b, openai_feed (world s) i = Resp 429 b) →
  (k ≤ 34)%nat →
  (k = Z.to_nat max_retries →
   ∃ s', analyze_openai text max_retries s = (Ret None, s')
     ∧ log s' = log s ++ backoff_events text (uniform_feed (world s)) 0 k)
  ∧ (∀ o, (k < Z.to_nat max_retries)%nat →
       openai_terminal (openai_feed (world s) k) = Some o →
       ∃ s', analyze_openai text max_retries s = (o, s')
         ∧ log s' = log s ++ backoff_events text (uniform_feed (world s)) 0 k
                      ++ [EvRequest OpenAI text])
  ∧ (k = 34%nat → (34 < Z.to_nat max_retries)%nat →
     (∃ b, openai_feed (world s) 34 = Resp 429 b) →
     ∃ s', analyze_openai text max_retries s = (Raise OverflowError, s')
       ∧ log s' = log s ++ backoff_events text (uniform_feed (world s)) 0 34
                    ++ [EvRequest OpenAI text]).
Proof.
  intros H429 Hk34. split; [|split].
  - intros Hk.
    destruct (openai_attempts_throttled text k 0 0 s) as (s' & Hrun & Hlog & _);
      [lia|lia|done|].
    exists s'. split; [|done]. unfold analyze_openai.
    rewrite <- Hk. replace k with (k + 0)%nat at 1 by lia. by rewrite Hrun.
  - intros o Hlt Ho.
    destruct (openai_attempts_throttled text k
                (S (Z.to_nat max_retries - S k)) 0 s)
      as (s' & Hrun & Hlog & Hfeed & _); [lia|lia|done|].
    exists (requests_post OpenAI text s').2. split.
    + unfold analyze_openai.
      replace (Z.to_nat max_retries)
        with (k + S (Z.to_nat max_retries - S k))%nat by lia.
      rewrite Hrun, openai_attempts_S, Hfeed, Nat.add_0_r. cbv zeta.
      unfold openai_terminal in Ho.
      destruct (openai_feed (world s) k) as [|code json].
      { by injection Ho as <-. }
      destruct (code =? 200).
      { injection Ho as <-. by destruct json. }
      destruct (code =? 429); [done|]. by injection Ho as <-.
    + simpl. by rewrite Hlog, <- (assoc_L (++)).
  - intros -> Hlt [b Hb].
    destruct (openai_attempts_throttled text 34
                (S (Z.to_nat max_retries - 35)) 0 s)
      as (s' & Hrun & Hlog & Hfeed & _); [lia|lia|done|].
    exists (random_uniform (requests_post OpenAI text s').2).2. split.
    + unfold analyze_openai.
      replace (Z.to_nat max_retries)
        with (34 + S (Z.to_nat max_retries - 35))%nat by lia.
      rewrite Hrun, openai_attempts_S, Hfeed, Nat.add_0_r, Hb. cbv zeta.
      cbn [Z.eqb Pos.eqb].
      by replace (2 ^ (0 + Z.of_nat 34) >? sleep_max) with true
        by (vm_compute; reflexivity).
    + simpl. by rewrite Hlog, <- (assoc_L (++)).
Qed.

Lemma analyze_openai_any_retries_witness :
  (∃ s', analyze_openai "hi" 5 (start failing_world []) = (Ret None, s')
     ∧ log s' = backoff_events "hi" (uniform_feed failing_world) 0 2
                  ++ [EvRequest OpenAI "hi"])
  ∧ (∃ s', analyze_openai "hi" 40 (start (throttled_world 40) [])
           = (Raise OverflowError, s')
       ∧ log s' = backoff_events "hi" (uniform_feed (throttled_world 40)) 0 34
                    ++ [EvRequest OpenAI "hi"]).
Proof.
  split.
  - assert (∀ i, (i < 2)%nat →
              ∃ b, openai_feed (world (start failing_world [])) i = Resp 429 b)
      as H429.
    { intros [|[|i]] Hi; [by eexists..|lia]. }
    assert (2 ≤ 34)%nat as Hk by lia.
    destruct (analyze_openai_any_retries "hi" 5 (start failing_world []) 2
                H429 Hk) as (_ & Hnext & _).
    apply (Hnext (Ret None)); [simpl; lia|reflexivity].
  - assert (∀ i, (i < 34)%nat →
              ∃ b, openai_feed (world (start (throttled_world 40) [])) i
                   = Resp 429 b) as H429.
    { intros i Hi. exists None. simpl.
      by destruct (Nat.ltb_spec i 40); [|lia]. }
    assert (34 ≤ 34)%nat as Hk by lia.
    destruct (analyze_openai_any_retries "hi" 40
                (start (throttled_world 40) []) 34 H429 Hk) as (_ & _ & Hover).
    apply Hover; [reflexivity|simpl; lia|by exists None].
Defined.

End ClassifierMore.

(** ** More on the batched analysis *)

Section PipelineMore.



Lemma requests_app l k : requests (l ++ k) = requests l ++ requests k.
Proof. apply omap_app. Qed.

Lemma requests_batches bl :
  requests (concat (map batch_events bl))
  = concat (map post_requests (concat bl)).
Proof.
  induction bl as [|b bl IH]; [done|].
  cbn [map concat]. rewrite requests_app, IH, map_app, concat_app.
  f_equal. unfold batch_events. rewrite requests_app, app_nil_r.
  induction b as [|q b IHb]; [done|]. cbn [map concat].
  rewrite requests_app, IHb. done.
Qed.

Lemma sleeps_batches bl :
  sleeps (concat (map batch_events bl)) = concat (map batch_sleeps bl).
Proof.
  induction bl as [|b bl IH]; [done|].
  cbn [map concat]. rewrite sleeps_app, IH. f_equal.
  unfold batch_events, batch_sleeps. rewrite sleeps_app. f_equal.
  induction b as [|q b IHb]; [done|]. cbn [map concat length replicate].
  rewrite sleeps_app, IHb. done.
Qed.

(** X12. Under the same conditions the run sends exactly two requests for each
    kept post, first to the first classifier, then to the second, both with
    the stripped text, in file order; and it sleeps one second after every
    post and five seconds after every batch, the last batch included. *)
Theorem analyze_posts_batched_traffic (limit batch_size : Z) (s : Sys) :
  0 < batch_size →
  existsb is_garbage (first_lines limit (raw_file s)) = false →
  answers_plainly (openai_feed (world s)) →
  let kept := retained (first_lines limit (raw_file s)) in
  let run := analyze_posts_batched limit batch_size s in
  ∃ starts,
    py_range (Z.of_nat (length kept)) batch_size = Ret starts
    ∧ log run.2
      = log s ++ concat (map batch_events (batches kept batch_size starts))
    ∧ requests (log run.2)
      = requests (log s) ++ concat (map post_requests kept)
    ∧ sleeps (log run.2)
      = sleeps (log s)
        ++ concat (map batch_sleeps (batches kept batch_size starts)).
Proof.
  intros Hbs Hclean Hplain kept run.
  destruct (batches_spec kept batch_size Hbs) as (starts & Hrange & Hcat & _).
  destruct (batches_loop_plain s starts kept batch_size 0 s Hplain
              (moved_refl s)) as (s' & Hrun & _ & Hlog & _).
  assert (run = (Ret tt, s')) as ->.
  { subst run. unfold analyze_posts_batched.
    rewrite read_posts_spec, Hclean. fold kept. by rewrite Hrange. }
  exists starts. cbn [snd]. split; [done|]. split; [done|].
  rewrite Hlog, requests_app, sleeps_app, requests_batches, sleeps_batches,
    Hcat. done.
Qed.

Lemma analyze_posts_batched_traffic_witness :
  requests (log (analyze_posts_batched 10 5
                   (start plain_world (blanks_first 2))).2)
  = [(OpenAI, ">>7 agreed"); (Perspective, ">>7 agreed");
     (OpenAI, ">>7 agreed"); (Perspective, ">>7 agreed")].
Proof.
  assert (0 < 5) as Hbs by lia.
  assert (answers_plainly (openai_feed (world (start plain_world
                                                 (blanks_first 2)))))
    as Hplain by (intros k; by eexists).
  destruct (analyze_posts_batched_traffic 10 5
              (start plain_world (blanks_first 2)) Hbs eq_refl Hplain)
    as (starts & _ & _ & Hreq & _).
  exact Hreq.
Defined.

Lemma keys_of_imap (f : nat → PostRecord * string → ResultRecord) ps :
  (∀ i p, result_key (f i p) = post_key p) →
  map result_key (imap f ps) = map post_key ps.
Proof.
  revert f. induction ps as [|p ps IH]; intros f Hf; [done|].
  cbn [imap map]. rewrite Hf. f_equal. apply IH. intros i q. apply Hf.
Qed.

(** X13. The analysis keeps no account of what it has analysed: run a second
    time over the same raw file, it analyses the same posts again and
    appends a second record for each of them. *)
Theorem analyze_posts_batched_twice (limit batch_size : Z) (s : Sys) :
  0 < batch_size →
  existsb is_garbage (first_lines limit (raw_file s)) = false →
  answers_plainly (openai_feed (world s)) →
  let kept := retained (first_lines limit (raw_file s)) in
  let first := analyze_posts_batched limit batch_size s in
  let second := analyze_posts_batched limit batch_size first.2 in
  second.1 = Ret tt
  ∧ ∃ rs, result_file second.2 = result_file s ++ rs
      ∧ map result_key rs = map post_key kept ++ map post_key kept.
Proof.
  intros Hbs Hclean Hplain kept first second.
  destruct (analyze_posts_batched_run limit batch_size s Hbs Hclean Hplain)
    as (s1 & _ & Hrun1 & _ & Hres1 & _ & Hmoved1).
  fold kept in Hres1, Hmoved1.
  assert (first = (Ret tt, s1)) as Hfirst by done.
  assert (raw_file s1 = raw_file s) as Hraw by apply Hmoved1.
  destruct (analyze_posts_batched_run limit batch_size s1 Hbs)
    as (s2 & _ & Hrun2 & _ & Hres2 & _).
  { by rewrite Hraw. }
  { by apply (answers_plainly_moved (length kept) s s1). }
  rewrite Hraw in Hres2. fold kept in Hres2.
  subst second. rewrite Hfirst. cbn [snd]. rewrite Hrun2. cbn [fst snd].
  split; [done|]. eexists. rewrite Hres2, Hres1, <- (assoc_L (++)). split; [done|].
  rewrite map_app, !keys_of_imap; done.
Qed.

Lemma analyze_posts_batched_twice_witness :
  ∃ rs,
    result_file
      (analyze_posts_batched 10 5
         (analyze_posts_batched 10 5 (start plain_world (blanks_first 1))).2).2
    = rs
    ∧ map result_key rs
      = [post_key (good_record, ">>7 agreed");
         post_key (good_record, ">>7 agreed")].
Proof.
  assert (0 < 5) as Hbs by lia.
  assert (answers_plainly (openai_feed (world (start plain_world
                                                 (blanks_first 1)))))
    as Hplain by (intros k; by eexists).
  destruct (analyze_posts_batched_twice 10 5
              (start plain_world (blanks_first 1)) Hbs eq_refl Hplain)
    as (_ & rs & Hres & Hkeys).
  exists rs. split; [exact Hres|exact Hkeys].
Defined.

Lemma py_range_empty step : step ≠ 0 → py_range 0 step = Ret [].
Proof.
  intros Hs. unfold py_range.
  destruct (Z.eqb_spec step 0); [done|].
  destruct (Z.ltb_spec step 0); [done|].
  rewrite Z.add_0_l, Z.div_small by lia. done.
Qed.

(** X14. A batch size that is not positive: zero makes [range] raise
    [ValueError], after the file was read and before anything else is done;
    with a negative one the run ends normally without analysing a single
    post. In both cases nothing is sent or written. *)
Theorem analyze_posts_batched_bad_batch_size (limit batch_size : Z)
    (s : Sys) :
  batch_size ≤ 0 →
  existsb is_garbage (first_lines limit (raw_file s)) = false →
  analyze_posts_batched limit batch_size s
  = (if batch_size =? 0 then Raise ValueError else Ret tt, s).
Proof.
  intros Hbs Hclean. unfold analyze_posts_batched.
  rewrite read_posts_spec, Hclean. unfold py_range.
  destruct (Z.eqb_spec batch_size 0); [done|].
  destruct (Z.ltb_spec batch_size 0); [done|lia].
Qed.

Lemma analyze_posts_batched_bad_batch_size_witness :
  analyze_posts_batched 10 (-5) (start plain_world (blanks_first 2))
  = (Ret tt, start plain_world (blanks_first 2)).
Proof.
  apply (analyze_posts_batched_bad_batch_size 10 (-5)
           (start plain_world (blanks_first 2))); [lia|reflexivity].
Defined.

(** X15. A limit that is not positive: no line is read, so that even a file of
    malformed lines raises nothing, and nothing is analysed. *)
Theorem analyze_posts_batched_no_limit (limit batch_size : Z) (s : Sys) :
  limit ≤ 0 →
  analyze_posts_batched limit batch_size s
  = (if batch_size =? 0 then Raise ValueError else Ret tt, s).
Proof.
  intros Hlimit. unfold analyze_posts_batched.
  rewrite read_posts_spec. unfold first_lines.
  replace (Z.to_nat limit) with 0%nat by lia. rewrite take_0. cbn [existsb].
  change (retained []) with (@nil (PostRecord * string)). cbn [length].
  destruct (Z.eqb_spec batch_size 0) as [->|Hne]; [done|].
  by rewrite py_range_empty.
Qed.

Lemma analyze_posts_batched_no_limit_witness :
  analyze_posts_batched 0 5 (start plain_world torn_file)
  = (Ret tt, start plain_world torn_file).
Proof.
  apply (analyze_posts_batched_no_limit 0 5 (start plain_world torn_file)).
  lia.
Defined.

(** X16. Whatever the parameters, the world and the way the run ends, the
    analysis leaves the raw file as it is and only appends to the result
    file. *)
Theorem analyze_posts_batched_frame (limit batch_size : Z) (s : Sys) :
  raw_file (analyze_posts_batched limit batch_size s).2 = raw_file s
  ∧ result_file s
    `prefix_of` result_file (analyze_posts_batched limit batch_size s).2.
Proof.
  destruct (Z.lt_ge_cases 0 batch_size) as [Hpos|Hneg].
  - destruct (analyze_posts_batched_done limit batch_size s Hpos)
      as (n & _ & (Hraw & (rs & Hres & _) & _) & _).
    split; [done|]. rewrite Hres. by apply prefix_app_r.
  - unfold analyze_posts_batched.
    destruct (read_posts limit 0 (raw_file s) []) as [ps|e]; [|done].
    unfold py_range. destruct (Z.eqb_spec batch_size 0); [done|].
    destruct (Z.ltb_spec batch_size 0); [done|lia].
Qed.

End PipelineMore.

(** ** The script *)

Section Script.

(** X17. The analysis reads the raw file from the top. When the file already
    holds 1000 lines or more before [main] starts, the analysis phase of
    [main] looks at those lines only: every result it writes belongs to a
    post kept from the first 1000 old lines, in file order, and none of the
    records collected in this run is analysed. *)
Theorem main_analyses_old_lines (fuel : nat) (s : Sys) :
  (1000 ≤ length (raw_file s))%nat →
  let kept := retained (first_lines 1000 (raw_file s)) in
  match main fuel s with
  | None => (collect_posts fuel 5000 s).1.1 = false
  | Some (r, s') =>
      raw_file s `prefix_of` raw_file s'
      ∧ ∃ n rs, (n ≤ length kept)%nat
          ∧ result_file s' = result_file s ++ rs
          ∧ map result_key rs = map post_key (take n kept)
          ∧ (r = Ret tt → n = length kept)
  end.
Proof.
  intros Hlen kept. unfold main, collect_posts.
  destruct (while_loop_counts (raw_file s) fuel 5000
              {| seen_posts := ∅; collected := 0 |} s)
    as (recs & Hraw & _); [by apply crawl_counts_start|].
  destruct (while_loop_frame fuel 5000
              {| seen_posts := ∅; collected := 0 |} s) as (Hres & _).
  destruct (while_loop fuel 5000 {| seen_posts := ∅; collected := 0 |} s)
    as [[finished c] s1].
  cbn [fst snd] in *. destruct finished; [|done].
  assert (0 < 5) as Hbs by lia.
  destruct (analyze_posts_batched_done 1000 5 s1 Hbs)
    as (n & Hn & (Hraw' & (rs & Hres' & Hkeys) & _) & Hret).
  assert (first_lines 1000 (raw_file s1) = first_lines 1000 (raw_file s))
    as Hfirst.
  { unfold first_lines. rewrite Hraw. apply take_app_le. lia. }
  rewrite Hfirst in Hn, Hkeys, Hret. fold kept in Hn, Hkeys, Hret.
  destruct (analyze_posts_batched 1000 5 s1) as [r s'] eqn:Hrun.
  cbn [fst snd] in *. split.
  - rewrite Hraw', Hraw. by apply prefix_app_r.
  - exists n, rs. by rewrite <- Hres.
Qed.

Lemma main_analyses_old_lines_witness :
  let s := start long_thread_world thousand_blanks in
  let kept := retained (first_lines 1000 (raw_file s)) in
  match main 1 s with
  | None => (collect_posts 1 5000 s).1.1 = false
  | Some (r, s') =>
      raw_file s `prefix_of` raw_file s'
      ∧ ∃ n rs, (n ≤ length kept)%nat
          ∧ result_file s' = result_file s ++ rs
          ∧ map result_key rs = map post_key (take n kept)
          ∧ (r = Ret tt → n = length kept)
  end.
Proof.
  intros s. apply (main_analyses_old_lines 1 s). exact (le_n 1000).
Defined.

End Script.
